(** * ExerciseFormCorrector: a shallow embedding of the React component

    The development follows
    [exercise-app/src/components/ExerciseFormCorrector.jsx] (the current
    component, with drag-and-drop and object-URL cleanup).  React state
    cells, refs and the browser services the component calls
    ([URL.createObjectURL], [URL.revokeObjectURL], [axios.post], [alert],
    [console.error]) are fields of one explicit state record; every handler
    is a computation in a small state monad over that record, and every
    call of a browser service is appended to a chronological trace. *)

From Stdlib Require Import ZArith QArith Qround Qpower Lqa Ascii String List Lia.
From stdpp Require Import base tactics option list strings gmap.

Local Open Scope string_scope.
Local Open Scope Z_scope.
Local Open Scope list_scope.

(** ** Data model *)

(** A blob URL returned by [URL.createObjectURL]; the browser never hands
    out the same URL twice, so URLs are numbered. *)
Definition Url := nat.

(** A [File] object.  [file_id] is the identity of the JS object
    ([Object.is]), which is what React compares in a dependency array. *)
Record File := {
  file_id : nat;
  file_name : string;
  file_type : string
}.

#[global] Instance File_eq_dec : EqDecision File.
Proof. solve_decision. Defined.

(** One entry of [corrections_needed].  [severity] is [None] when the
    property is missing from the JSON object ([undefined]). *)
Record Correction := {
  issue : string;
  severity : option string;
  feedback : string;
  correction_instruction : string
}.

(** One value of the [detailed_breakdown] object. *)
Record AspectData := {
  score : Z;
  aspect_feedback : string
}.

(** [response.data].  An optional property is [None] when it is missing
    or [null]; [detailed_breakdown] lists the object's own entries in
    [Object.entries] order. *)
Record AnalysisResult := {
  overall_score : Z;
  whats_right : option (list string);
  corrections_needed : option (list Correction);
  detailed_breakdown : option (list (string * AspectData));
  improvement_tips : option (list string);
  overlay_url : option string
}.

(** [response.data] as axios hands it to [analyzeForm]: the parsed JSON
    object or, when the body of a 2xx reply is not valid JSON, the body
    itself as a string: called as on lines 98-112, with its default
    options, axios resolves such a reply and does not reject it. *)
Inductive ResponseData :=
| Json (a : AnalysisResult)
| Unparsed (body : string).

Coercion Json : AnalysisResult >-> ResponseData.

(** A JS number as [uploadProgress] can hold it: [Math.round] yields an
    integer, or [NaN] / [Infinity] when the division is not finite. *)
Inductive number :=
| Int (z : Z)
| NaN
| Infinity.

(** The [progressEvent] axios passes to [onUploadProgress]: the byte
    counters of the browser's progress event, with [total] undefined when
    the length is not computable. *)
Record ProgressEvent := {
  loaded : N;
  total : option N
}.

(** The [<video ref={videoRef}>] element. *)
Record VideoElement := {
  src : option Url
}.

(** A part of the multipart body built with [formData.append]. *)
Inductive FormValue :=
| FormFile (f : File)
| FormString (s : string).

(** Calls of browser services, in the order the component makes them. *)
Inductive Effect :=
| CreateObjectURL (f : File) (u : Url)
| RevokeObjectURL (u : Url)
| VideoLoad (u : Url)
| AxiosPost (url : string) (formData : list (string * FormValue))
            (contentType : string)
| ConsoleError (label : string) (error : string)
| Alert (msg : string).

(** ** Result renderer: pure helpers *)

Module Renderer.

(** [getScoreColor], lines 124-128. *)
Definition getScoreColor (score : Z) : string :=
  if 80 <=? score then "text-green-600"
  else if 60 <=? score then "text-yellow-600"
  else "text-red-600".

(** [getSeverityColor], lines 130-141.  The [switch] compares with [===],
    so a missing severity falls to [default]. *)
Definition getSeverityColor (severity : option string) : string :=
  match severity with
  | Some "critical" => "bg-red-100 border-red-400 text-red-700"
  | Some "warning" => "bg-yellow-100 border-yellow-400 text-yellow-700"
  | Some "info" => "bg-blue-100 border-blue-400 text-blue-700"
  | _ => "bg-gray-100 border-gray-400 text-gray-700"
  end.

(** The nested ternary of the severity badge, lines 364-370. *)
Definition badgeColor (severity : option string) : string :=
  if decide (severity = Some "critical") then "bg-red-200 text-red-800"
  else if decide (severity = Some "warning")
       then "bg-yellow-200 text-yellow-800"
  else "bg-blue-200 text-blue-800".

(** [aspect.replace("_", " ")]: a string pattern replaces the first
    occurrence only. *)
Fixpoint replace_underscore (s : string) : string :=
  match s with
  | EmptyString => EmptyString
  | String c rest =>
      if Ascii.eqb c "_"%char then String " "%char rest
      else String c (replace_underscore rest)
  end.

(** What the results panel shows. *)
Record CorrectionCard := {
  card_class : string;
  card_issue : string;
  badge_class : string;
  badge_text : option string;
  card_feedback : string;
  card_instruction : string
}.

Record BreakdownCell := {
  cell_title : string;
  cell_class : string;
  cell_score : Z;
  cell_feedback : string
}.

Inductive ReportSection :=
| OverallScore (cls : string) (score : Z)
| WhatsRight (items : list string)
| CorrectionsNeeded (cards : list CorrectionCard)
| DetailedBreakdown (cells : list BreakdownCell)
| ImprovementTips (tips : list string)
| SkeletalOverlay (video_src : string).

(** [analysis.corrections_needed.map(...)], lines 354-385. *)
Definition renderCorrection (correction : Correction) : CorrectionCard :=
  {| card_class := getSeverityColor (severity correction);
     card_issue := issue correction;
     badge_class := badgeColor (severity correction);
     badge_text := severity correction;
     card_feedback := feedback correction;
     card_instruction := correction_instruction correction |}.

(** [Object.entries(analysis.detailed_breakdown).map(...)], lines 397-415. *)
Definition renderAspect (entry : string * AspectData) : BreakdownCell :=
  let '(aspect, data) := entry in
  {| cell_title := replace_underscore aspect;
     cell_class := getScoreColor (score data);
     cell_score := score data;
     cell_feedback := aspect_feedback data |}.

(** [{xs && xs.length > 0 && (<section/>)}]: nothing is rendered for a
    missing or empty array. *)
Definition whenNonEmpty {A} (xs : option (list A))
    (section : list A -> ReportSection) : list ReportSection :=
  match xs with
  | Some (x :: rest) => [section (x :: rest)]
  | _ => []
  end.

(** [{x && (<section/>)}] on an object: any object, also an empty one, is
    truthy. *)
Definition whenObject {A} (x : option A)
    (section : A -> ReportSection) : list ReportSection :=
  match x with
  | Some v => [section v]
  | None => []
  end.

(** [{s && (<section/>)}] on a string: the empty string is falsy. *)
Definition whenString (s : option string)
    (section : string -> ReportSection) : list ReportSection :=
  match s with
  | Some (String c rest) => [section (String c rest)]
  | _ => []
  end.

(** The children of the results panel, lines 309-454: empty when
    [analysis] is null. *)
Definition renderResults (analysis : option AnalysisResult)
    : list ReportSection :=
  match analysis with
  | None => []
  | Some a =>
      [OverallScore (getScoreColor (overall_score a)) (overall_score a)]
      ++ whenNonEmpty (whats_right a) WhatsRight
      ++ whenNonEmpty (corrections_needed a)
           (fun cs => CorrectionsNeeded (map renderCorrection cs))
      ++ whenObject (detailed_breakdown a)
           (fun entries => DetailedBreakdown (map renderAspect entries))
      ++ whenNonEmpty (improvement_tips a) ImprovementTips
      ++ whenString (overlay_url a)
           (fun path => SkeletalOverlay ("http://localhost:5000" +:+ path))
  end.

End Renderer.

(** ** Component state *)

(** The [useState] cells, the three refs, and what the browser keeps on the
    component's behalf: the supply of blob URLs, the number of [axios.post]
    promises not yet settled, whether the component is mounted, and the
    trace of service calls. *)
Record State := {
  videoFile : option File;
  exerciseType : string;
  analysis : option ResponseData;
  loading : bool;
  uploadProgress : number;
  isDragging : bool;
  videoRef : option VideoElement;
  fileInputRef : option string;
  videoUrlRef : option Url;
  next_url : Url;
  inflight : nat;
  mounted : bool;
  trace : list Effect
}.

(** The state after the first render, lines 6-14: the file input is
    mounted with an empty value, the [<video>] element is not, and the
    [videoFile] effect has found no file to preview. *)
Definition initial : State :=
  {| videoFile := None;
     exerciseType := "squat";
     analysis := None;
     loading := false;
     uploadProgress := Int 0;
     isDragging := false;
     videoRef := None;
     fileInputRef := Some "";
     videoUrlRef := None;
     next_url := 0%nat;
     inflight := 0%nat;
     mounted := true;
     trace := [] |}.

(** ** A state monad for handlers *)

Definition M (A : Type) : Type := State -> A * State.

#[global] Instance M_ret : MRet M := fun A a st => (a, st).
#[global] Instance M_bind : MBind M :=
  fun A B f m st => let '(a, st') := m st in f a st'.

Definition gets {A} (f : State -> A) : M A := fun st => (f st, st).
Definition modify (f : State -> State) : M unit := fun st => (tt, f st).
Definition exec {A} (m : M A) (st : State) : State := snd (m st).
Definition skip : M unit := mret tt.

Fixpoint forEach {A} (xs : list A) (f : A -> M unit) : M unit :=
  match xs with
  | [] => skip
  | x :: rest => f x;; forEach rest f
  end.

(** State setters and ref assignments. *)
Definition setVideoFile (v : option File) : M unit :=
  modify (fun st =>
    {| videoFile := v; exerciseType := exerciseType st;
       analysis := analysis st; loading := loading st;
       uploadProgress := uploadProgress st; isDragging := isDragging st;
       videoRef := videoRef st; fileInputRef := fileInputRef st;
       videoUrlRef := videoUrlRef st; next_url := next_url st;
       inflight := inflight st; mounted := mounted st; trace := trace st |}).

Definition setExerciseType (v : string) : M unit :=
  modify (fun st =>
    {| videoFile := videoFile st; exerciseType := v;
       analysis := analysis st; loading := loading st;
       uploadProgress := uploadProgress st; isDragging := isDragging st;
       videoRef := videoRef st; fileInputRef := fileInputRef st;
       videoUrlRef := videoUrlRef st; next_url := next_url st;
       inflight := inflight st; mounted := mounted st; trace := trace st |}).

Definition setAnalysis (v : option ResponseData) : M unit :=
  modify (fun st =>
    {| videoFile := videoFile st; exerciseType := exerciseType st;
       analysis := v; loading := loading st;
       uploadProgress := uploadProgress st; isDragging := isDragging st;
       videoRef := videoRef st; fileInputRef := fileInputRef st;
       videoUrlRef := videoUrlRef st; next_url := next_url st;
       inflight := inflight st; mounted := mounted st; trace := trace st |}).

Definition setLoading (v : bool) : M unit :=
  modify (fun st =>
    {| videoFile := videoFile st; exerciseType := exerciseType st;
       analysis := analysis st; loading := v;
       uploadProgress := uploadProgress st; isDragging := isDragging st;
       videoRef := videoRef st; fileInputRef := fileInputRef st;
       videoUrlRef := videoUrlRef st; next_url := next_url st;
       inflight := inflight st; mounted := mounted st; trace := trace st |}).

Definition setUploadProgress (v : number) : M unit :=
  modify (fun st =>
    {| videoFile := videoFile st; exerciseType := exerciseType st;
       analysis := analysis st; loading := loading st;
       uploadProgress := v; isDragging := isDragging st;
       videoRef := videoRef st; fileInputRef := fileInputRef st;
       videoUrlRef := videoUrlRef st; next_url := next_url st;
       inflight := inflight st; mounted := mounted st; trace := trace st |}).

Definition setIsDragging (v : bool) : M unit :=
  modify (fun st =>
    {| videoFile := videoFile st; exerciseType := exerciseType st;
       analysis := analysis st; loading := loading st;
       uploadProgress := uploadProgress st; isDragging := v;
       videoRef := videoRef st; fileInputRef := fileInputRef st;
       videoUrlRef := videoUrlRef st; next_url := next_url st;
       inflight := inflight st; mounted := mounted st; trace := trace st |}).

Definition setVideoRef (v : option VideoElement) : M unit :=
  modify (fun st =>
    {| videoFile := videoFile st; exerciseType := exerciseType st;
       analysis := analysis st; loading := loading st;
       uploadProgress := uploadProgress st; isDragging := isDragging st;
       videoRef := v; fileInputRef := fileInputRef st;
       videoUrlRef := videoUrlRef st; next_url := next_url st;
       inflight := inflight st; mounted := mounted st; trace := trace st |}).

Definition setFileInputRef (v : option string) : M unit :=
  modify (fun st =>
    {| videoFile := videoFile st; exerciseType := exerciseType st;
       analysis := analysis st; loading := loading st;
       uploadProgress := uploadProgress st; isDragging := isDragging st;
       videoRef := videoRef st; fileInputRef := v;
       videoUrlRef := videoUrlRef st; next_url := next_url st;
       inflight := inflight st; mounted := mounted st; trace := trace st |}).

Definition setVideoUrlRef (v : option Url) : M unit :=
  modify (fun st =>
    {| videoFile := videoFile st; exerciseType := exerciseType st;
       analysis := analysis st; loading := loading st;
       uploadProgress := uploadProgress st; isDragging := isDragging st;
       videoRef := videoRef st; fileInputRef := fileInputRef st;
       videoUrlRef := v; next_url := next_url st;
       inflight := inflight st; mounted := mounted st; trace := trace st |}).

Definition setNextUrl (v : Url) : M unit :=
  modify (fun st =>
    {| videoFile := videoFile st; exerciseType := exerciseType st;
       analysis := analysis st; loading := loading st;
       uploadProgress := uploadProgress st; isDragging := isDragging st;
       videoRef := videoRef st; fileInputRef := fileInputRef st;
       videoUrlRef := videoUrlRef st; next_url := v;
       inflight := inflight st; mounted := mounted st; trace := trace st |}).

Definition setInflight (v : nat) : M unit :=
  modify (fun st =>
    {| videoFile := videoFile st; exerciseType := exerciseType st;
       analysis := analysis st; loading := loading st;
       uploadProgress := uploadProgress st; isDragging := isDragging st;
       videoRef := videoRef st; fileInputRef := fileInputRef st;
       videoUrlRef := videoUrlRef st; next_url := next_url st;
       inflight := v; mounted := mounted st; trace := trace st |}).

Definition setMounted (v : bool) : M unit :=
  modify (fun st =>
    {| videoFile := videoFile st; exerciseType := exerciseType st;
       analysis := analysis st; loading := loading st;
       uploadProgress := uploadProgress st; isDragging := isDragging st;
       videoRef := videoRef st; fileInputRef := fileInputRef st;
       videoUrlRef := videoUrlRef st; next_url := next_url st;
       inflight := inflight st; mounted := v; trace := trace st |}).

(** A call of a browser service, recorded at the end of the trace. *)
Definition perform (e : Effect) : M unit :=
  modify (fun st =>
    {| videoFile := videoFile st; exerciseType := exerciseType st;
       analysis := analysis st; loading := loading st;
       uploadProgress := uploadProgress st; isDragging := isDragging st;
       videoRef := videoRef st; fileInputRef := fileInputRef st;
       videoUrlRef := videoUrlRef st; next_url := next_url st;
       inflight := inflight st; mounted := mounted st;
       trace := trace st ++ [e] |}).

(** [URL.createObjectURL(file)]: a URL never returned before. *)
Definition URL_createObjectURL (file : File) : M Url :=
  u ← gets next_url;
  setNextUrl (S u);;
  perform (CreateObjectURL file u);;
  mret u.

(** [URL.revokeObjectURL(url)]. *)
Definition URL_revokeObjectURL (u : Url) : M unit :=
  perform (RevokeObjectURL u).

(** ** Input manager *)

(** The preview-URL block shared by [handleDrop] (lines 47-57),
    [handleFileSelect] (lines 69-79) and the [videoFile] effect (lines
    154-163): revoke the URL held by [videoUrlRef], create one for [file],
    store it, and point the mounted [<video>] element at it. *)
Definition replacePreviewUrl (file : File) : M unit :=
  current ← gets videoUrlRef;
  match current with
  | Some old => URL_revokeObjectURL old
  | None => skip
  end;;
  videoUrl ← URL_createObjectURL file;
  setVideoUrlRef (Some videoUrl);;
  video ← gets videoRef;
  match video with
  | Some _ => setVideoRef (Some {| src := Some videoUrl |});;
              perform (VideoLoad videoUrl)
  | None => skip
  end.

(** Lines 58-61 and 80-83: clear the file input so that the same file can
    be chosen again. *)
Definition resetFileInput : M unit :=
  input ← gets fileInputRef;
  match input with
  | Some _ => setFileInputRef (Some "")
  | None => skip
  end.

(** Lines 22-37. *)
Definition handleDragEnter : M unit := setIsDragging true.
Definition handleDragLeave : M unit := setIsDragging false.
Definition handleDragOver : M unit := skip.

(** [handleDrop], lines 39-63; [files] is [e.dataTransfer.files].
    [preventDefault] and [stopPropagation] leave the component's state
    alone and are not recorded. *)
Definition handleDrop (files : list File) : M unit :=
  setIsDragging false;;
  match files !! 0%nat with
  | Some file =>
      if String.prefix "video/" (file_type file) then
        setVideoFile (Some file);;
        replacePreviewUrl file;;
        resetFileInput
      else skip
  | None => skip
  end.

(** [handleFileSelect], lines 65-85; [files] is [event.target.files]. *)
Definition handleFileSelect (files : list File) : M unit :=
  match files !! 0%nat with
  | Some file =>
      setVideoFile (Some file);;
      replacePreviewUrl file;;
      resetFileInput
  | None => skip
  end.

(** The effect with dependency [[videoFile]], lines 152-165. *)
Definition videoFileEffect : M unit :=
  selected ← gets videoFile;
  match selected with
  | Some file => replacePreviewUrl file
  | None => skip
  end.

(** The cleanup of the mount effect, lines 144-150. *)
Definition unmountCleanup : M unit :=
  current ← gets videoUrlRef;
  match current with
  | Some u => URL_revokeObjectURL u
  | None => skip
  end.

(** ** Upload and analyze gateway *)

(** [Math.round(x)]: the nearest integer, a tie going up. *)
Definition Math_round (x : Q) : Z := Qfloor (x + (1 # 2)).

(** JS numbers are IEEE 754 doubles, and so is every intermediate result
    of an arithmetic expression.  [binary64 x] is the double nearest to
    the rational [x]: a 53-bit significand, a tie going to the even one.
    The exponent range is left out: the byte counters of a progress event
    are unsigned 64-bit integers, so nothing computed from them comes
    near the largest or the smallest normal double. *)

(** The nearest integer, a tie going to the even one. *)
Definition roundEven (y : Q) : Z :=
  let f := Qfloor y in
  match (y - inject_Z f ?= 1 # 2)%Q with
  | Lt => f
  | Gt => f + 1
  | Eq => if Z.even f then f else f + 1
  end.

(** The exponent [e] of the last significand bit of a positive [x]:
    2^52 <= x / 2^e < 2^53. *)
Definition exponentOf (x : Q) : Z :=
  let g := Z.log2 (Qnum x) - Z.log2 (Zpos (Qden x)) - 52 in
  if Qle_bool (inject_Z (2 ^ 52)) (x / 2 ^ g)%Q then g else g - 1.

Definition binary64 (x : Q) : Q :=
  if Qle_bool x 0 then 0%Q
  else (inject_Z (roundEven (x / 2 ^ exponentOf x)) * 2 ^ exponentOf x)%Q.

(** A byte counter as a JS number. *)
Definition toNumber (n : N) : Q := binary64 (inject_Z (Z.of_N n)).

(** [Math.round((progressEvent.loaded * 100) / progressEvent.total)],
    lines 106-108, the product and the quotient being rounded to doubles.
    Dividing by [undefined] gives [NaN]; dividing by zero gives [NaN] for
    0/0 and [Infinity] otherwise. *)
Definition percentCompleted (progressEvent : ProgressEvent) : number :=
  match total progressEvent with
  | None => NaN
  | Some 0%N => if (loaded progressEvent =? 0)%N then NaN else Infinity
  | Some t =>
      Int (Math_round
             (binary64
                (binary64 (toNumber (loaded progressEvent) * 100)
                 / toNumber t)))
  end.

(** The [onUploadProgress] callback, lines 105-110. *)
Definition onUploadProgress (progressEvent : ProgressEvent) : M unit :=
  setUploadProgress (percentCompleted progressEvent).

(** How the promise returned by [axios.post] settles: resolved with the
    [response.data] of a 2xx reply, or rejected, as axios does for a
    network error and for a status outside 2xx. *)
Inductive Outcome :=
| Resolved (data : ResponseData)
| Rejected (error : string).

(** [analyzeForm] up to the [await], lines 88-112; returns whether a
    request was issued. *)
Definition analyzeForm_request : M bool :=
  selected ← gets videoFile;
  match selected with
  | None => mret false
  | Some file =>
      setLoading true;;
      setUploadProgress (Int 0);;
      exercise ← gets exerciseType;
      perform (AxiosPost "http://localhost:5000/api/analyze"
                 [("video", FormFile file);
                  ("exercise_type", FormString exercise)]
                 "multipart/form-data");;
      mret true
  end.

(** [analyzeForm] after the [await], lines 114-121: the rest of [try],
    or [catch], and then [finally]. *)
Definition analyzeForm_settle (outcome : Outcome) : M unit :=
  match outcome with
  | Resolved data => setAnalysis (Some data)
  | Rejected error =>
      perform (ConsoleError "Analysis failed:" error);;
      perform (Alert "Analysis failed. Please try again.")
  end;;
  setLoading false;;
  setUploadProgress (Int 0).

(** One complete call of [analyzeForm], lines 87-122, for a transport
    that delivers [events] to [onUploadProgress] and then settles with
    [outcome]. *)
Definition analyzeForm (events : list ProgressEvent) (outcome : Outcome)
    : M unit :=
  started ← analyzeForm_request;
  if (started : bool) then
    forEach events onUploadProgress;;
    analyzeForm_settle outcome
  else skip.

(** ** The component as an event-driven machine *)

Inductive Event :=
| DragEnter
| DragLeave
| DragOver
| Drop (files : list File)
| FileSelect (files : list File)
| ExerciseChange (value : string)
| AnalyzeClick
| UploadProgressed (progressEvent : ProgressEvent)
| RequestSettled (outcome : Outcome)
| Unmount.

(** What React does after a handler has run: the [<video>] element is
    mounted while [videoFile] is set (line 242), and the [videoFile]
    effect runs when [videoFile] is not the object of the last render. *)
Definition commit (previous : option File) : M unit :=
  selected ← gets videoFile;
  video ← gets videoRef;
  match selected, video with
  | Some _, None => setVideoRef (Some {| src := None |})
  | None, Some _ => setVideoRef None
  | _, _ => skip
  end;;
  if decide (selected = previous) then skip else videoFileEffect.

(** The button's [disabled={!videoFile || loading}], line 260. *)
Definition analyzeDisabled (st : State) : bool :=
  negb (bool_decide (is_Some (videoFile st))) || loading st.

(** One event.  DOM events reach the handlers only while the component is
    mounted; axios callbacks fire only for a request that is in flight. *)
Definition dispatch (ev : Event) : M unit :=
  live ← gets mounted;
  pending ← gets inflight;
  previous ← gets videoFile;
  match ev with
  | DragEnter => if (live : bool) then handleDragEnter else skip
  | DragLeave => if (live : bool) then handleDragLeave else skip
  | DragOver => if (live : bool) then handleDragOver else skip
  | Drop files =>
      if (live : bool) then handleDrop files;; commit previous else skip
  | FileSelect files =>
      if (live : bool) then handleFileSelect files;; commit previous else skip
  | ExerciseChange value =>
      if (live : bool) then setExerciseType value else skip
  | AnalyzeClick =>
      disabled ← gets analyzeDisabled;
      if live && negb disabled then
        started ← analyzeForm_request;
        if (started : bool) then setInflight (S pending) else skip
      else skip
  | UploadProgressed progressEvent =>
      match pending with
      | O => skip
      | S _ => onUploadProgress progressEvent
      end
  | RequestSettled outcome =>
      match pending with
      | O => skip
      | S rest => setInflight rest;; analyzeForm_settle outcome
      end
  | Unmount =>
      if live then unmountCleanup;; setMounted false else skip
  end.

Definition step (st : State) (ev : Event) : State := exec (dispatch ev) st.

(** The state after a sequence of events. *)
Definition run (events : list Event) (st : State) : State :=
  fold_left step events st.

(** ** Observations on traces *)

Definition isCreate (e : Effect) : bool :=
  match e with CreateObjectURL _ _ => true | _ => false end.
Definition isRevoke (e : Effect) : bool :=
  match e with RevokeObjectURL _ => true | _ => false end.
Definition isAlert (e : Effect) : bool :=
  match e with Alert _ => true | _ => false end.
Definition isRequest (e : Effect) : bool :=
  match e with AxiosPost _ _ _ => true | _ => false end.

Definition count (p : Effect -> bool) (tr : list Effect) : nat :=
  length (List.filter p tr).

(** Preview handles created, and released, by the calls of a trace. *)
Definition creations (tr : list Effect) : nat := count isCreate tr.
Definition releases (tr : list Effect) : nat := count isRevoke tr.
Definition alerts (tr : list Effect) : nat := count isAlert tr.
Definition requests (tr : list Effect) : nat := count isRequest tr.

(** The blob URLs that are live after the calls of a trace. *)
Definition applyEffect (live : gset Url) (e : Effect) : gset Url :=
  match e with
  | CreateObjectURL _ u => live ∪ {[u]}
  | RevokeObjectURL u => live ∖ {[u]}
  | _ => live
  end.

Definition liveHandles (tr : list Effect) : gset Url :=
  fold_left applyEffect tr ∅.

(** At the end of [tr]: at most one handle is live, and creations exceed
    releases by at most one. *)
Definition atMostOne (tr : list Effect) : Prop :=
  (creations tr <= releases tr + 1)%nat /\ (size (liveHandles tr) <= 1)%nat.

(** The same at every point in time. *)
Definition alwaysAtMostOne (tr : list Effect) : Prop :=
  forall pre, pre `prefix_of` tr -> atMostOne pre.

(** The handle the component considers current. *)
Definition currentHandle (st : State) : gset Url :=
  match mounted st, videoUrlRef st with
  | true, Some u => {[u]}
  | _, _ => ∅
  end.

(** The calls of [tr] never hold more than one handle, they leave exactly
    the handles of [live], and creations exceed releases by the size of
    [live]. *)
Record tracks (tr : list Effect) (live : gset Url) : Prop := {
  tracks_always : alwaysAtMostOne tr;
  tracks_live : liveHandles tr = live;
  tracks_balance : creations tr = (releases tr + size live)%nat
}.

(** The resource invariant of the component: the live handles are the
    current one. *)
Definition Inv (st : State) : Prop := tracks (trace st) (currentHandle st).

(** The current handle was handed out by [URL.createObjectURL] before. *)
Definition handleFresh (st : State) : Prop :=
  forall u, videoUrlRef st = Some u -> (u < next_url st)%nat.

(** The invariant of a mounted, and of an unmounted, component. *)
Definition Ready (st : State) : Prop := mounted st = true /\ Inv st.
Definition Down (st : State) : Prop := mounted st = false /\ Inv st.

(** ** Predicates on handlers *)

(** [m] maintains the state predicate [P]. *)
Definition preserves {A} (P : State -> Prop) (m : M A) : Prop :=
  forall st, P st -> P (snd (m st)).

(** The request [analyzeForm] posts for [file] in state [st]. *)
Definition posted (file : File) (st : State) : Effect :=
  AxiosPost "http://localhost:5000/api/analyze"
    [("video", FormFile file);
     ("exercise_type", FormString (exerciseType st))]
    "multipart/form-data".

(** ** Observations on the rendered report *)

(** A breakdown cell that shows the score of an entry of
    [detailed_breakdown] with the class [getScoreColor] gives for it. *)
Definition showsScore (entry : string * AspectData)
    (cell : Renderer.BreakdownCell) : Prop :=
  Renderer.cell_score cell = score (snd entry)
  /\ Renderer.cell_class cell = Renderer.getScoreColor (score (snd entry)).

(** ** The specification's failures *)

(** "Network error, non-2xx response, malformed body", the failures of an
    analyze request as the specification lists them: a rejected promise,
    or a reply whose body could not be parsed. *)
Definition spec_AnalysisFailed (outcome : Outcome) : Prop :=
  match outcome with
  | Rejected _ => True
  | Resolved (Unparsed _) => True
  | Resolved (Json _) => False
  end.

(** ** The specification's upload percentage *)

(** floor(bytes_sent * 100 / bytes_total), as the specification words it. *)
Definition spec_UploadProgress (bytes_sent bytes_total : N) : Z :=
  (Z.of_N bytes_sent * 100) / Z.of_N bytes_total.

(** ** Sample inputs *)

Definition clip : File :=
  {| file_id := 1; file_name := "pushup.mp4"; file_type := "video/mp4" |}.

Definition retake : File :=
  {| file_id := 2; file_name := "retake.mov";
     file_type := "video/quicktime" |}.

Definition photo : File :=
  {| file_id := 3; file_name := "photo.png"; file_type := "image/png" |}.

Definition elbowFlare (sev : option string) : Correction :=
  {| issue := "elbow flare";
     severity := sev;
     feedback := "elbows too wide";
     correction_instruction := "tuck elbows to 45°" |}.

(** The response of the specification's end-to-end example, with an empty
    [detailed_breakdown] object. *)
Definition pushupReport : AnalysisResult :=
  {| overall_score := 72;
     whats_right := Some ["good depth"];
     corrections_needed := Some [elbowFlare (Some "warning")];
     detailed_breakdown := Some [];
     improvement_tips := Some ["slow the descent"];
     overlay_url := None |}.

(** A state in which a file is selected and a report is on display. *)
Definition reportShown : State :=
  run [FileSelect [clip]; AnalyzeClick;
       RequestSettled (Resolved pushupReport)] initial.

(** ** Upload panel *)

(** The catalog of the exercise selector, lines 16-20: the value and the
    label of each option. *)
Definition exercises : list (string * string) :=
  [("squat", "Squat"); ("pushup", "Push-up"); ("lunge", "Lunge")].

(** [n > 0] on a JS number: a comparison with [NaN] is false. *)
Definition greaterThanZero (n : number) : bool :=
  match n with
  | Int z => 0 <? z
  | NaN => false
  | Infinity => true
  end.

(** The upload progress bar, lines 293-305: the percentage it shows, or
    [None] when [loading && uploadProgress > 0] does not hold. *)
Definition progressBar (st : State) : option number :=
  if loading st && greaterThanZero (uploadProgress st)
  then Some (uploadProgress st)
  else None.

(** ** Invariants of the reachable states *)

(** The loading flag tells whether a request is in flight, there is at
    most one, and the progress is 0 while none is. *)
Definition singleFlight (st : State) : Prop :=
  inflight st = (if loading st then 1 else 0)%nat
  /\ (loading st = false -> uploadProgress st = Int 0).

(** While a file is selected the [<video>] element is mounted and plays
    the URL held by [videoUrlRef]; before, neither exists. *)
Definition previewCurrent (st : State) : Prop :=
  match videoFile st with
  | None => videoRef st = None /\ videoUrlRef st = None
  | Some _ =>
      exists u, videoUrlRef st = Some u
                /\ videoRef st = Some {| src := Some u |}
  end.

(** A posted request goes to the analyze endpoint as multipart form data
    with a video part and an exercise type of the catalog. *)
Definition catalogRequest (e : Effect) : Prop :=
  match e with
  | AxiosPost url formData contentType =>
      url = "http://localhost:5000/api/analyze"
      /\ contentType = "multipart/form-data"
      /\ exists file exercise,
           formData = [("video", FormFile file);
                       ("exercise_type", FormString exercise)]
           /\ In exercise (map fst exercises)
  | _ => True
  end.

(** The selector only offers the values of the catalog. *)
Definition offered (ev : Event) : Prop :=
  match ev with
  | ExerciseChange value => In value (map fst exercises)
  | _ => True
  end.

(** The settlement of a request by a rejected promise. *)
Definition isRejection (ev : Event) : bool :=
  match ev with
  | RequestSettled (Rejected _) => true
  | _ => false
  end.

(** The alert an event raises: one when it rejects a request that is in
    flight, none otherwise. *)
Definition alertsOf (st : State) (ev : Event) : nat :=
  if isRejection ev && negb (inflight st =? 0)%nat then 1%nat else 0%nat.

(** Every alert answers a request that has settled: alerts and requests
    in flight together do not exceed the requests posted. *)
Definition accounted (st : State) : Prop :=
  (alerts (trace st) + inflight st <= requests (trace st))%nat.

(** The exercise type on display and every request posted so far come
    from the catalog. *)
Definition fromCatalog (st : State) : Prop :=
  In (exerciseType st) (map fst exercises)
  /\ Forall catalogRequest (trace st).

(** The characters of an aspect name other than the underscore. *)
Definition noUnderscore (s : string) : Prop :=
  Forall (fun c => c <> "_"%char) (list_ascii_of_string s).

(** ** The earlier component *)

(** The second copy of the component kept in the same file (lines 461-782
    of the file): a file picker without drag and drop, without
    [videoUrlRef] and without effects.  It has the state cells
    [videoFile], [exerciseType], [analysis], [loading], [uploadProgress]
    and the ref [videoRef]; the other fields of [State] are not touched.
    Its [analyzeForm], [getScoreColor] and [getSeverityColor] are those of
    the current component, word for word. *)
Module Legacy.

(** [handleFileSelect], lines 480-490: a preview URL is created and the
    mounted [<video>] element pointed at it; nothing is revoked. *)
Definition handleFileSelect (files : list File) : M unit :=
  match files !! 0%nat with
  | Some file =>
      setVideoFile (Some file);;
      videoUrl ← URL_createObjectURL file;
      video ← gets videoRef;
      match video with
      | Some _ => setVideoRef (Some {| src := Some videoUrl |})
      | None => skip
      end
  | None => skip
  end.

(** After the handler React mounts the [<video>] element once a file is
    selected (line 607); there is no effect to run. *)
Definition commit : M unit :=
  selected ← gets videoFile;
  video ← gets videoRef;
  match selected, video with
  | Some _, None => setVideoRef (Some {| src := None |})
  | _, _ => skip
  end.

(** One use of the file picker, and a sequence of them. *)
Definition pick (st : State) (files : list File) : State :=
  exec (handleFileSelect files;; commit) st.

Definition picks (selections : list (list File)) (st : State) : State :=
  fold_left pick selections st.

(** The outcome of evaluating JSX: a thrown error or the value. *)
Definition Rendered (A : Type) : Type := string + A.

Definition andThen {A B} (r : Rendered A) (k : A -> Rendered B)
    : Rendered B :=
  match r with
  | inl error => inl error
  | inr a => k a
  end.

(** [xs.map(f)] for a callback that can throw. *)
Fixpoint mapRendered {A B} (f : A -> Rendered B) (xs : list A)
    : Rendered (list B) :=
  match xs with
  | [] => inr []
  | x :: rest =>
      andThen (f x) (fun y =>
      andThen (mapRendered f rest) (fun ys => inr (y :: ys)))
  end.

(** The callback of [corrections_needed.map], lines 693-724: its first
    attribute reads [correrection.severity] (line 697), and no binding of
    that name exists, so evaluating it throws. *)
Definition renderCorrection (correction : Correction)
    : Rendered Renderer.CorrectionCard :=
  inl "ReferenceError: correrection is not defined".

(** The children of the results panel, lines 648-776; there is no overlay
    section. *)
Definition renderResults (analysis : option AnalysisResult)
    : Rendered (list Renderer.ReportSection) :=
  match analysis with
  | None => inr []
  | Some a =>
      andThen
        match corrections_needed a with
        | Some (c :: cs) =>
            andThen (mapRendered renderCorrection (c :: cs))
              (fun cards => inr [Renderer.CorrectionsNeeded cards])
        | _ => inr []
        end
        (fun corrections =>
           inr ([Renderer.OverallScore
                   (Renderer.getScoreColor (overall_score a))
                   (overall_score a)]
                ++ Renderer.whenNonEmpty (whats_right a) Renderer.WhatsRight
                ++ corrections
                ++ Renderer.whenObject (detailed_breakdown a)
                     (fun entries =>
                        Renderer.DetailedBreakdown
                          (map Renderer.renderAspect entries))
                ++ Renderer.whenNonEmpty (improvement_tips a)
                     Renderer.ImprovementTips))
  end.

End Legacy.

(** ** Result renderer: properties *)

Section RendererFacts.
Import Renderer.

Lemma getScoreColor_high (score : Z) :
  80 <= score -> getScoreColor score = "text-green-600".
Proof.
  intros Hs. unfold getScoreColor.
  destruct (Z.leb_spec 80 score); [reflexivity | lia].
Qed.

Lemma getScoreColor_medium (score : Z) :
  60 <= score < 80 -> getScoreColor score = "text-yellow-600".
Proof.
  intros [Hlo Hhi]. unfold getScoreColor.
  destruct (Z.leb_spec 80 score); [lia |].
  destruct (Z.leb_spec 60 score); [reflexivity | lia].
Qed.

Lemma getScoreColor_low (score : Z) :
  score < 60 -> getScoreColor score = "text-red-600".
Proof.
  intros Hs. unfold getScoreColor.
  destruct (Z.leb_spec 80 score); [lia |].
  destruct (Z.leb_spec 60 score); [lia | reflexivity].
Qed.

(** Membership in the rendered panel, section by section. *)
Lemma in_renderResults (a : AnalysisResult) (s : ReportSection) :
  In s (renderResults (Some a)) <->
    s = OverallScore (getScoreColor (overall_score a)) (overall_score a)
    \/ In s (whenNonEmpty (whats_right a) WhatsRight)
    \/ In s (whenNonEmpty (corrections_needed a)
               (fun cs => CorrectionsNeeded (map renderCorrection cs)))
    \/ In s (whenObject (detailed_breakdown a)
               (fun entries => DetailedBreakdown (map renderAspect entries)))
    \/ In s (whenNonEmpty (improvement_tips a) ImprovementTips)
    \/ In s (whenString (overlay_url a)
               (fun path =>
                  SkeletalOverlay ("http://localhost:5000" +:+ path))).
Proof.
  unfold renderResults. rewrite !in_app_iff. simpl. intuition congruence.
Qed.

Lemma in_whenNonEmpty {A} (xs : option (list A)) section s :
  In s (whenNonEmpty xs section) ->
  exists x rest, xs = Some (x :: rest) /\ s = section (x :: rest).
Proof.
  destruct xs as [[|x rest]|]; simpl; try tauto.
  intros [<-|[]]. eauto.
Qed.

Lemma in_whenObject {A} (x : option A) section s :
  In s (whenObject x section) -> exists v, x = Some v /\ s = section v.
Proof.
  destruct x as [v|]; simpl; try tauto.
  intros [<-|[]]. eauto.
Qed.

Lemma in_whenString (x : option string) section s :
  In s (whenString x section) ->
  exists c rest, x = Some (String c rest) /\ s = section (String c rest).
Proof.
  destruct x as [[|c rest]|]; simpl; try tauto.
  intros [<-|[]]. eauto.
Qed.

(** A rendered breakdown section lists exactly the entries of the
    object. *)
Lemma breakdown_cells (a : AnalysisResult) (cells : list BreakdownCell) :
  In (DetailedBreakdown cells) (renderResults (Some a)) ->
  exists entries,
    detailed_breakdown a = Some entries /\ cells = map renderAspect entries.
Proof.
  rewrite in_renderResults.
  intros [H|[H|[H|[H|[H|H]]]]]; try discriminate H.
  - apply in_whenNonEmpty in H as (? & ? & _ & ?). discriminate.
  - apply in_whenNonEmpty in H as (? & ? & _ & ?). discriminate.
  - apply in_whenObject in H as (entries & ? & Heq).
    injection Heq as ->. eauto.
  - apply in_whenNonEmpty in H as (? & ? & _ & ?). discriminate.
  - apply in_whenString in H as (? & ? & _ & ?). discriminate.
Qed.


Lemma renderAspect_scores (entries : list (string * AspectData)) :
  Forall2 showsScore entries (map renderAspect entries).
Proof.
  induction entries as [|[aspect data] entries IH]; constructor.
  - split; reflexivity.
  - exact IH.
Qed.

(** C5: [getScoreColor] gives the high (green) class from 80 up, the
    medium (yellow) class from 60 to 79 and the low (red) class below 60;
    the rendered overall score takes its class from it at
    [overall_score], and the rendered breakdown has one cell per entry of
    [detailed_breakdown], in order, showing the score of that entry with
    the class [getScoreColor] gives for it. *)
Theorem scoreBand_thresholds (score : Z) :
  (80 <= score -> getScoreColor score = "text-green-600")
  /\ (60 <= score < 80 -> getScoreColor score = "text-yellow-600")
  /\ (score < 60 -> getScoreColor score = "text-red-600")
  /\ (forall a : AnalysisResult,
        head (renderResults (Some a))
        = Some (OverallScore (getScoreColor (overall_score a))
                  (overall_score a)))
  /\ (forall (a : AnalysisResult) (entries : list (string * AspectData)),
        detailed_breakdown a = Some entries ->
        exists cells,
          In (DetailedBreakdown cells) (renderResults (Some a))
          /\ Forall2 showsScore entries cells)
  /\ (forall (a : AnalysisResult) (cells : list BreakdownCell),
        In (DetailedBreakdown cells) (renderResults (Some a)) ->
        exists entries,
          detailed_breakdown a = Some entries
          /\ Forall2 showsScore entries cells).
Proof.
  split; [apply getScoreColor_high |].
  split; [apply getScoreColor_medium |].
  split; [apply getScoreColor_low |].
  split; [reflexivity |].
  split.
  - intros a entries Hd. exists (map renderAspect entries). split.
    + apply in_renderResults. do 3 right; left. rewrite Hd. simpl. tauto.
    + apply renderAspect_scores.
  - intros a cells Hsec.
    apply breakdown_cells in Hsec as (entries & Hd & ->).
    exists entries. split; [exact Hd | apply renderAspect_scores].
Qed.

Lemma scoreBand_thresholds_witness :
  getScoreColor 85 = "text-green-600"
  /\ getScoreColor 80 = "text-green-600"
  /\ getScoreColor 60 = "text-yellow-600"
  /\ getScoreColor 59 = "text-red-600"
  /\ exists cells,
       In (DetailedBreakdown cells)
          (renderResults
             (Some {| overall_score := 85; whats_right := None;
                      corrections_needed := None;
                      detailed_breakdown :=
                        Some [("knee_tracking",
                               {| score := 64;
                                  aspect_feedback := "steady" |})];
                      improvement_tips := None; overlay_url := None |}))
       /\ Forall2 showsScore
            [("knee_tracking",
              {| score := 64; aspect_feedback := "steady" |})]
            cells.
Proof.
  split; [apply (proj1 (scoreBand_thresholds 85)); lia |].
  split; [apply (proj1 (scoreBand_thresholds 80)); lia |].
  split; [apply (proj1 (proj2 (scoreBand_thresholds 60))); lia |].
  split; [apply (proj1 (proj2 (proj2 (scoreBand_thresholds 59)))); lia |].
  apply (proj1 (proj2 (proj2 (proj2 (proj2 (scoreBand_thresholds 0)))))).
  reflexivity.
Defined.


(** Case analysis on the [switch] of [getSeverityColor]: one character
    test at a time. *)
Ltac switch_cases :=
  repeat match goal with
  | |- context [match ?x with _ => _ end] => is_var x; destruct x
  end.

Lemma getSeverityColor_default (sev : option string) :
  sev <> Some "critical" -> sev <> Some "warning" -> sev <> Some "info" ->
  getSeverityColor sev = "bg-gray-100 border-gray-400 text-gray-700".
Proof.
  intros Hc Hw Hi. unfold getSeverityColor.
  switch_cases; try reflexivity; congruence.
Qed.


(** C6: [getSeverityColor] maps "critical", "warning" and "info" to the
    red, yellow and blue classes and every other severity, a missing one
    included, to the gray default class; being a function into classes,
    it returns for every input. *)
Theorem severityClass_total :
  getSeverityColor (Some "critical")
    = "bg-red-100 border-red-400 text-red-700"
  /\ getSeverityColor (Some "warning")
    = "bg-yellow-100 border-yellow-400 text-yellow-700"
  /\ getSeverityColor (Some "info")
    = "bg-blue-100 border-blue-400 text-blue-700"
  /\ getSeverityColor None = "bg-gray-100 border-gray-400 text-gray-700"
  /\ (forall sev : option string,
        sev <> Some "critical" -> sev <> Some "warning" ->
        sev <> Some "info" ->
        getSeverityColor sev = "bg-gray-100 border-gray-400 text-gray-700")
  /\ (forall sev : option string, exists cls : string,
        getSeverityColor sev = cls
        /\ In cls ["bg-red-100 border-red-400 text-red-700";
                   "bg-yellow-100 border-yellow-400 text-yellow-700";
                   "bg-blue-100 border-blue-400 text-blue-700";
                   "bg-gray-100 border-gray-400 text-gray-700"]).
Proof.
  repeat (split; [reflexivity |]).
  split; [exact getSeverityColor_default |].
  intros sev. eexists. split; [reflexivity |].
  destruct (decide (sev = Some "critical")) as [->|Hc]; [simpl; tauto |].
  destruct (decide (sev = Some "warning")) as [->|Hw]; [simpl; tauto |].
  destruct (decide (sev = Some "info")) as [->|Hi]; [simpl; tauto |].
  rewrite getSeverityColor_default by assumption. simpl. tauto.
Qed.

Lemma severityClass_total_witness :
  getSeverityColor (Some "banana")
  = "bg-gray-100 border-gray-400 text-gray-700".
Proof.
  apply (proj1 (proj2 (proj2 (proj2 (proj2 severityClass_total)))));
    discriminate.
Defined.



(** Each list section is shown exactly when its own array is present and
    non-empty, whatever the other fields hold. *)
Lemma whats_right_shown (a : AnalysisResult) (items : list string) :
  In (WhatsRight items) (renderResults (Some a))
  <-> whats_right a = Some items /\ items <> [].
Proof.
  rewrite in_renderResults. split.
  - intros [H|[H|[H|[H|[H|H]]]]]; try discriminate H.
    + apply in_whenNonEmpty in H as (x & rest & ? & Heq).
      injection Heq as ->. split; [assumption | discriminate].
    + apply in_whenNonEmpty in H as (? & ? & _ & ?). discriminate.
    + apply in_whenObject in H as (? & ? & ?). discriminate.
    + apply in_whenNonEmpty in H as (? & ? & _ & ?). discriminate.
    + apply in_whenString in H as (? & ? & _ & ?). discriminate.
  - intros [Hw Hne]. right; left. rewrite Hw.
    destruct items; [congruence | simpl; tauto].
Qed.

Lemma improvement_tips_shown (a : AnalysisResult) (tips : list string) :
  In (ImprovementTips tips) (renderResults (Some a))
  <-> improvement_tips a = Some tips /\ tips <> [].
Proof.
  rewrite in_renderResults. split.
  - intros [H|[H|[H|[H|[H|H]]]]]; try discriminate H.
    + apply in_whenNonEmpty in H as (? & ? & _ & ?). discriminate.
    + apply in_whenNonEmpty in H as (? & ? & _ & ?). discriminate.
    + apply in_whenObject in H as (? & ? & ?). discriminate.
    + apply in_whenNonEmpty in H as (x & rest & ? & Heq).
      injection Heq as ->. split; [assumption | discriminate].
    + apply in_whenString in H as (? & ? & _ & ?). discriminate.
  - intros [Hw Hne]. do 4 right; left. rewrite Hw.
    destruct tips; [congruence | simpl; tauto].
Qed.

(** The breakdown section is shown whenever the object is present, also
    when it has no entries. *)
Lemma detailed_breakdown_shown (a : AnalysisResult)
    (entries : list (string * AspectData)) :
  detailed_breakdown a = Some entries ->
  In (DetailedBreakdown (map renderAspect entries)) (renderResults (Some a)).
Proof.
  intros Hd. apply in_renderResults. do 3 right; left.
  rewrite Hd. simpl. tauto.
Qed.

(** C4, evaluated on the specification's end-to-end response: the score,
    the strength, the warning-styled correction and the tip are rendered,
    and so is a breakdown section without cells, the empty
    [detailed_breakdown] object being truthy. *)
Theorem empty_breakdown_is_rendered :
  renderResults (Some pushupReport)
  = [OverallScore "text-yellow-600" 72;
     WhatsRight ["good depth"];
     CorrectionsNeeded
       [{| card_class := "bg-yellow-100 border-yellow-400 text-yellow-700";
           card_issue := "elbow flare";
           badge_class := "bg-yellow-200 text-yellow-800";
           badge_text := Some "warning";
           card_feedback := "elbows too wide";
           card_instruction := "tuck elbows to 45°" |}];
     DetailedBreakdown [];
     ImprovementTips ["slow the descent"]]
  /\ In (DetailedBreakdown []) (renderResults (Some pushupReport)).
Proof.
  split; [reflexivity |].
  apply (detailed_breakdown_shown pushupReport []). reflexivity.
Qed.

End RendererFacts.

(** ** Reasoning about handlers *)

Section Hoare.

Context {P : State -> Prop}.

Lemma preserves_ret {A} (a : A) : preserves P (mret a).
Proof. intros st H. exact H. Qed.

Lemma preserves_skip : preserves P skip.
Proof. intros st H. exact H. Qed.

Lemma preserves_gets {A} (f : State -> A) : preserves P (gets f).
Proof. intros st H. exact H. Qed.

Lemma preserves_bind {A B} (m : M A) (k : A -> M B) :
  preserves P m -> (forall a, preserves P (k a)) -> preserves P (m ≫= k).
Proof.
  intros Hm Hk st H. unfold mbind, M_bind.
  specialize (Hm st H). destruct (m st) as [a st']. exact (Hk a st' Hm).
Qed.

Lemma preserves_modify (f : State -> State) :
  (forall st, P st -> P (f st)) -> preserves P (modify f).
Proof. intros Hf st H. exact (Hf st H). Qed.

Lemma preserves_forEach {A} (xs : list A) (f : A -> M unit) :
  (forall x, preserves P (f x)) -> preserves P (forEach xs f).
Proof.
  intros Hf. induction xs as [|x xs IH]; simpl.
  - apply preserves_skip.
  - apply preserves_bind; [apply Hf | intros _; exact IH].
Qed.

Lemma preserves_exec {A} (m : M A) (st : State) :
  preserves P m -> P st -> P (exec m st).
Proof. intros Hm H. exact (Hm st H). Qed.

End Hoare.

(** Walks through the binds and branches of a handler; [leaf] closes the
    goals left at state updates. *)
Ltac preserves_walk leaf :=
  repeat first
    [ leaf
    | apply preserves_skip
    | apply preserves_ret
    | apply preserves_gets
    | apply preserves_bind; [| intros ? ]
    | match goal with
      | |- preserves _ (match ?x with _ => _ end) => destruct x
      | |- preserves _ (match ?x with _ => _ end _) => destruct x
      end ].

(** ** Doubles *)

Section Doubles.
Local Open Scope Q_scope.

Lemma pow2_pos (e : Z) : 0 < 2 ^ e.
Proof. apply Qpower_0_lt. reflexivity. Qed.

Lemma pow2_plus (e e' : Z) : 2 ^ (e + e') == 2 ^ e * 2 ^ e'.
Proof. apply Qpower_plus. discriminate. Qed.

Lemma pow2_le (e e' : Z) : (e <= e')%Z -> 2 ^ e <= 2 ^ e'.
Proof. intros H. apply Qpower_le_compat_l; [exact H | discriminate]. Qed.

Lemma pow2_Z (n : Z) : (0 <= n)%Z -> inject_Z (2 ^ n) == 2 ^ n.
Proof. intros H. apply (Zpower_Qpower 2 n H). Qed.

Lemma div_pow2 (x : Q) (e : Z) : x / 2 ^ e * 2 ^ e == x.
Proof.
  pose proof (pow2_pos e) as Hp. field. intros H. rewrite H in Hp. discriminate Hp.
Qed.

Lemma exponentOf_spec (x : Q) :
  0 < x ->
  inject_Z (2 ^ 52) * 2 ^ exponentOf x <= x
  /\ x < inject_Z (2 ^ 53) * 2 ^ exponentOf x.
Proof.
  intros Hx. destruct x as [a b].
  assert (Ha : (0 < a)%Z) by (unfold Qlt in Hx; simpl in Hx; lia).
  unfold exponentOf. cbn [Qnum Qden].
  set (la := Z.log2 a). set (lb := Z.log2 (Z.pos b)).
  set (g := (la - lb - 52)%Z).
  destruct (Z.log2_spec a Ha) as [Ha1 Ha2]. fold la in Ha1, Ha2.
  destruct (Z.log2_spec (Z.pos b) ltac:(lia)) as [Hb1 Hb2]. fold lb in Hb1, Hb2.
  assert (Hla : (0 <= la)%Z) by apply Z.log2_nonneg.
  assert (Hlb : (0 <= lb)%Z) by apply Z.log2_nonneg.
  pose proof (pow2_pos g) as Hu. pose proof (pow2_pos lb) as Hv.
  assert (Hdec : 2 ^ la == 2 ^ g * 2 ^ lb * inject_Z (2 ^ 52)).
  { rewrite (pow2_Z 52) by lia. rewrite <- !pow2_plus. 
    replace (g + lb + 52)%Z with la by (unfold g; lia). reflexivity. }
  assert (HA1 : 2 ^ la <= inject_Z a)
    by (rewrite <- pow2_Z by lia; rewrite <- Zle_Qle; exact Ha1).
  assert (HA2 : inject_Z a < 2 * 2 ^ la).
  { rewrite <- (pow2_Z la) by lia. change 2 with (inject_Z 2) at 1.
    rewrite <- inject_Z_mult, <- Zlt_Qlt. rewrite Z.pow_succ_r in Ha2; lia. }
  assert (HB1 : 2 ^ lb <= inject_Z (Z.pos b))
    by (rewrite <- pow2_Z by lia; rewrite <- Zle_Qle; exact Hb1).
  assert (HB2 : inject_Z (Z.pos b) < 2 * 2 ^ lb).
  { rewrite <- (pow2_Z lb) by lia. change 2 with (inject_Z 2) at 1.
    rewrite <- inject_Z_mult, <- Zlt_Qlt. rewrite Z.pow_succ_r in Hb2; lia. }
  assert (Hxb : (a # b) * inject_Z (Z.pos b) == inject_Z a).
  { rewrite (Qmake_Qdiv a b). field. discriminate. }
  set (x := a # b) in *. set (A := inject_Z a) in *.
  set (B := inject_Z (Z.pos b)) in *.
  set (u := 2 ^ g) in *. set (v := 2 ^ lb) in *. set (w := 2 ^ la) in *.
  assert (Hc : inject_Z (2 ^ 52) == 4503599627370496) by reflexivity.
  assert (Hc' : inject_Z (2 ^ 53) == 2 * 4503599627370496) by reflexivity.
  assert (HxB : x < 2 * 4503599627370496 * u).
  { assert (H1 : A < 2 * 4503599627370496 * u * v) by (rewrite Hc in Hdec; lra).
    assert (H2 : 0 <= u * (B - v)) by (apply Qmult_le_0_compat; lra).
    assert (H3 : 0 < B) by lra.
    apply Qnot_le_lt. intros Hle.
    assert (H4 : 0 <= (x - 2 * 4503599627370496 * u) * B)
      by (apply Qmult_le_0_compat; lra).
    lra. }
  assert (HxA : 4503599627370496 * u < 2 * x).
  { assert (H1 : 4503599627370496 * u * v <= A) by (rewrite Hc in Hdec; lra).
    assert (H2 : 0 < u * (2 * v - B)) by (apply Qmult_lt_0_compat; lra).
    assert (H3 : 0 < B) by lra.
    apply Qnot_le_lt. intros Hle.
    assert (H4 : 0 <= (4503599627370496 * u - 2 * x) * B)
      by (apply Qmult_le_0_compat; lra).
    lra. }
  pose proof (div_pow2 x g) as Hd. fold u in Hd.
  destruct (Qle_bool (inject_Z (2 ^ 52)) (x / u)) eqn:Hb.
  - apply Qle_bool_iff in Hb. rewrite Hc in Hb. rewrite Hc, Hc'.
    fold u. split; [| lra].
    assert (H : 0 <= (x / u - 4503599627370496) * u)
      by (apply Qmult_le_0_compat; lra).
    lra.
  - assert (Hlt : x / u < 4503599627370496).
    { apply Qnot_le_lt. intros H. rewrite <- Hc in H.
      apply Qle_bool_iff in H. congruence. }
    assert (Hu' : 2 ^ (g - 1) * 2 == u).
    { unfold u. replace g with ((g - 1) + 1)%Z at 2 by lia.
      rewrite pow2_plus. reflexivity. }
    rewrite Hc, Hc'.
    assert (H : 0 < (4503599627370496 - x / u) * u)
      by (apply Qmult_lt_0_compat; lra).
    split; lra.
Qed.
Lemma exponentOf_le (x y : Q) :
  0 < x -> x <= y -> (exponentOf x <= exponentOf y)%Z.
Proof.
  intros Hx Hxy.
  destruct (exponentOf_spec x Hx) as [H1 H2].
  destruct (exponentOf_spec y ltac:(lra)) as [H1' H2'].
  destruct (Z_le_gt_dec (exponentOf x) (exponentOf y)) as [Hle|Hgt];
    [exact Hle | exfalso].
  pose proof (pow2_le (exponentOf y + 1) (exponentOf x) ltac:(lia)) as Hp.
  rewrite pow2_plus in Hp. change (2 ^ 1) with 2 in Hp.
  assert (Hc : inject_Z (2 ^ 52) == 4503599627370496) by reflexivity.
  assert (Hc' : inject_Z (2 ^ 53) == 2 * 4503599627370496) by reflexivity.
  rewrite Hc in *. rewrite Hc' in *. lra.
Qed.

Lemma exponentOf_comp (x y : Q) :
  0 < x -> x == y -> exponentOf x = exponentOf y.
Proof.
  intros Hx Hxy. apply Z.le_antisymm; apply exponentOf_le; lra.
Qed.

Lemma roundEven_floor (y : Q) :
  roundEven y = Qfloor y
  \/ (roundEven y = (Qfloor y + 1)%Z /\ inject_Z (Qfloor y) + (1 # 2) <= y).
Proof.
  unfold roundEven.
  destruct (Qcompare_spec (y - inject_Z (Qfloor y)) (1 # 2)) as [H|H|H].
  - destruct (Z.even (Qfloor y)); [left; reflexivity |].
    right. split; [reflexivity | lra].
  - left. reflexivity.
  - right. split; [reflexivity | lra].
Qed.

Lemma roundEven_near (y : Q) :
  inject_Z (roundEven y) - (1 # 2) <= y <= inject_Z (roundEven y) + (1 # 2).
Proof.
  pose proof (Qfloor_le y) as Hf. pose proof (Qlt_floor y) as Hc.
  rewrite inject_Z_plus in Hc. change (inject_Z 1) with 1 in Hc.
  unfold roundEven.
  destruct (Qcompare_spec (y - inject_Z (Qfloor y)) (1 # 2)) as [H|H|H].
  - destruct (Z.even (Qfloor y)).
    + split; lra.
    + rewrite inject_Z_plus. change (inject_Z 1) with 1. split; lra.
  - split; lra.
  - rewrite inject_Z_plus. change (inject_Z 1) with 1. split; lra.
Qed.

Lemma roundEven_ge (y : Q) (T : Z) : inject_Z T <= y -> (T <= roundEven y)%Z.
Proof.
  intros H. apply Qfloor_resp_le in H. rewrite Qfloor_Z in H.
  destruct (roundEven_floor y) as [->|[-> _]]; lia.
Qed.

Lemma roundEven_le (y : Q) (T : Z) : y <= inject_Z T -> (roundEven y <= T)%Z.
Proof.
  intros H. pose proof (Qfloor_resp_le _ _ H) as Hf. rewrite Qfloor_Z in Hf.
  destruct (roundEven_floor y) as [->|[-> Hh]]; [exact Hf |].
  assert (Hlt : inject_Z (Qfloor y) < inject_Z T) by lra.
  rewrite <- Zlt_Qlt in Hlt. lia.
Qed.

Lemma roundEven_comp (y y' : Q) : y == y' -> roundEven y = roundEven y'.
Proof.
  intros H. unfold roundEven. rewrite (Qfloor_comp _ _ H).
  assert (Hc : (y - inject_Z (Qfloor y') ?= 1 # 2)
               = (y' - inject_Z (Qfloor y') ?= 1 # 2))
    by (apply Qcompare_comp; [rewrite H; reflexivity | reflexivity]).
  rewrite Hc. reflexivity.
Qed.

Lemma roundEven_mono (y y' : Q) : y <= y' -> (roundEven y <= roundEven y')%Z.
Proof.
  intros H. pose proof (Qfloor_resp_le _ _ H) as Hf.
  destruct (Z.eq_dec (Qfloor y) (Qfloor y')) as [Heq|Hne].
  - unfold roundEven. rewrite Heq.
    destruct (Qcompare_spec (y - inject_Z (Qfloor y')) (1 # 2)) as [H1|H1|H1];
      destruct (Qcompare_spec (y' - inject_Z (Qfloor y')) (1 # 2))
        as [H2|H2|H2];
      try destruct (Z.even (Qfloor y')); try lia; exfalso; lra.
  - destruct (roundEven_floor y) as [->|[-> _]];
      destruct (roundEven_floor y') as [->|[-> _]]; lia.
Qed.

Lemma binary64_nonneg (x : Q) : 0 <= binary64 x.
Proof.
  unfold binary64. destruct (Qle_bool x 0) eqn:Hx; [lra |].
  assert (H0 : 0 < x).
  { apply Qnot_le_lt. intros H. apply Qle_bool_iff in H. congruence. }
  destruct (exponentOf_spec x H0) as [H1 _].
  pose proof (pow2_pos (exponentOf x)) as Hp.
  apply Qmult_le_0_compat; [| lra].
  change 0 with (inject_Z 0). rewrite <- Zle_Qle.
  apply roundEven_ge. change (inject_Z 0) with 0.
  apply Qle_shift_div_l; lra.
Qed.

Lemma binary64_positive (x : Q) :
  0 < x ->
  binary64 x == inject_Z (roundEven (x / 2 ^ exponentOf x)) * 2 ^ exponentOf x
  /\ (2 ^ 52 <= roundEven (x / 2 ^ exponentOf x) <= 2 ^ 53)%Z.
Proof.
  intros H0. unfold binary64.
  destruct (Qle_bool x 0) eqn:Hx;
    [apply Qle_bool_iff in Hx; lra |].
  split; [reflexivity |].
  destruct (exponentOf_spec x H0) as [H1 H2].
  pose proof (pow2_pos (exponentOf x)) as Hp.
  split.
  - apply roundEven_ge. apply Qle_shift_div_l; lra.
  - apply roundEven_le. apply Qle_shift_div_r; lra.
Qed.

Lemma binary64_pos (x : Q) : 0 < x -> 0 < binary64 x.
Proof.
  intros H0. destruct (binary64_positive x H0) as [-> [Hm _]].
  pose proof (pow2_pos (exponentOf x)) as Hp.
  apply Qmult_lt_0_compat; [| exact Hp].
  change 0 with (inject_Z 0). rewrite <- Zlt_Qlt. lia.
Qed.

#[global] Instance binary64_comp : Proper (Qeq ==> Qeq) binary64.
Proof.
  intros x y Hxy. destruct (Qlt_le_dec 0 x) as [Hx|Hx].
  - destruct (binary64_positive x Hx) as [-> _].
    destruct (binary64_positive y ltac:(lra)) as [-> _].
    rewrite (exponentOf_comp x y Hx Hxy).
    rewrite (roundEven_comp (x / 2 ^ exponentOf y) (y / 2 ^ exponentOf y))
      by (rewrite Hxy; reflexivity).
    reflexivity.
  - unfold binary64.
    assert (H1 : Qle_bool x 0 = true) by (apply Qle_bool_iff; exact Hx).
    assert (H2 : Qle_bool y 0 = true) by (apply Qle_bool_iff; lra).
    rewrite H1, H2. reflexivity.
Qed.

Lemma binary64_mono (x y : Q) : x <= y -> binary64 x <= binary64 y.
Proof.
  intros Hxy. destruct (Qlt_le_dec 0 x) as [Hx|Hx].
  - destruct (binary64_positive x Hx) as [-> [_ Hmx]].
    destruct (binary64_positive y ltac:(lra)) as [-> [Hmy _]].
    pose proof (exponentOf_le x y Hx Hxy) as He.
    set (ex := exponentOf x) in *. set (ey := exponentOf y) in *.
    pose proof (pow2_pos ex) as Hpx. pose proof (pow2_pos ey) as Hpy.
    destruct (Z.eq_dec ex ey) as [Heq|Hne].
    + rewrite Heq in *. apply Qmult_le_compat_r; [| lra].
      rewrite <- Zle_Qle. apply roundEven_mono.
      apply Qmult_le_compat_r; [exact Hxy |].
      apply Qlt_le_weak, Qinv_lt_0_compat, Hpy.
    + pose proof (pow2_le (ex + 1) ey ltac:(lia)) as Hp.
      rewrite pow2_plus in Hp. change (2 ^ 1) with 2 in Hp.
      rewrite Zle_Qle in Hmx, Hmy.
      assert (Hc : inject_Z (2 ^ 52) == 4503599627370496) by reflexivity.
      assert (Hc' : inject_Z (2 ^ 53) == 2 * 4503599627370496)
        by reflexivity.
      rewrite Hc' in Hmx. rewrite Hc in Hmy.
      set (mx := inject_Z (roundEven (x / 2 ^ ex))) in *.
      set (my := inject_Z (roundEven (y / 2 ^ ey))) in *.
      assert (A1 : 0 <= (2 * 4503599627370496 - mx) * 2 ^ ex)
        by (apply Qmult_le_0_compat; lra).
      assert (A2 : 0 <= (my - 4503599627370496) * 2 ^ ey)
        by (apply Qmult_le_0_compat; lra).
      lra.
  - unfold binary64 at 1.
    assert (H1 : Qle_bool x 0 = true) by (apply Qle_bool_iff; exact Hx).
    rewrite H1. apply binary64_nonneg.
Qed.

Lemma roundEven_Z (k : Z) : roundEven (inject_Z k) = k.
Proof.
  apply Z.le_antisymm; [apply roundEven_le | apply roundEven_ge]; lra.
Qed.

Lemma div_pow2_neg (x : Q) (e : Z) :
  (e <= 0)%Z -> x / 2 ^ e == x * inject_Z (2 ^ (- e)).
Proof.
  intros He. rewrite (pow2_Z (- e)) by lia. rewrite Qpower_opp.
  pose proof (pow2_pos e) as Hp. field. intros H. rewrite H in Hp.
  discriminate Hp.
Qed.

Lemma binary64_exact (n : Z) :
  (0 <= n < 2 ^ 53)%Z -> binary64 (inject_Z n) == inject_Z n.
Proof.
  intros [Hn0 Hn]. destruct (Z.eq_dec n 0%Z) as [->|Hnz]; [reflexivity |].
  assert (Hpos : 0 < inject_Z n)
    by (change 0 with (inject_Z 0); rewrite <- Zlt_Qlt; lia).
  destruct (binary64_positive _ Hpos) as [-> _].
  destruct (exponentOf_spec _ Hpos) as [H1 _].
  set (e := exponentOf (inject_Z n)) in *.
  assert (He : (e <= 0)%Z).
  { assert (Hlt : 2 ^ e < 2 ^ 1).
    { change (2 ^ 1) with 2. rewrite Zlt_Qlt in Hn.
      assert (Hc : inject_Z (2 ^ 52) == 4503599627370496) by reflexivity.
      assert (Hc' : inject_Z (2 ^ 53) == 2 * 4503599627370496)
        by reflexivity.
      rewrite Hc in H1. rewrite Hc' in Hn. lra. }
    apply Qpower_lt_compat_l_inv in Hlt; [lia | reflexivity]. }
  rewrite (roundEven_comp _ (inject_Z (n * 2 ^ (- e)))).
  - rewrite roundEven_Z, inject_Z_mult.
    rewrite <- (div_pow2_neg (inject_Z n) e He). apply div_pow2.
  - rewrite inject_Z_mult. apply div_pow2_neg, He.
Qed.

(** Rounding the double nearest to a / b gives the nearest integer to
    a / b itself when the quotient is below 128 and b below 2^46. *)
Lemma round_binary64_quotient (a b : Z) :
  (0 <= a)%Z -> (0 < b < 2 ^ 46)%Z -> (a < 128 * b)%Z ->
  Qfloor (binary64 (inject_Z a / inject_Z b) + (1 # 2))
  = ((2 * a + b) / (2 * b))%Z.
Proof.
  intros Ha [Hb0 Hb] Hab.
  assert (HB : 0 < inject_Z b)
    by (change 0 with (inject_Z 0); rewrite <- Zlt_Qlt; lia).
  destruct (Z.eq_dec a 0%Z) as [->|Hnz].
  { assert (H0 : inject_Z 0 / inject_Z b == 0) by (field; lra).
    rewrite H0. change (Qfloor (binary64 0 + (1 # 2))) with 0%Z.
    symmetry. apply Z.div_small. lia. }
  set (x := inject_Z a / inject_Z b).
  assert (HxB : x * inject_Z b == inject_Z a) by (unfold x; field; lra).
  assert (HA : 0 < inject_Z a)
    by (change 0 with (inject_Z 0); rewrite <- Zlt_Qlt; lia).
  assert (Hx : 0 < x) by (unfold x; apply Qlt_shift_div_l; lra).
  assert (Hx128 : x < 128).
  { unfold x. apply Qlt_shift_div_r; [exact HB |].
    change 128 with (inject_Z 128). rewrite <- inject_Z_mult, <- Zlt_Qlt.
    exact Hab. }
  destruct (binary64_positive x Hx) as [Hfl _].
  destruct (exponentOf_spec x Hx) as [H1 _].
  set (e := exponentOf x) in *.
  assert (He : (e <= -46)%Z).
  { assert (Hlt : 2 ^ (e + 52) < 2 ^ 7).
    { rewrite pow2_plus, <- (pow2_Z 52) by lia.
      change (2 ^ 7) with 128. lra. }
    apply Qpower_lt_compat_l_inv in Hlt; [lia | reflexivity]. }
  set (s := (- e)%Z). set (S := (2 ^ s)%Z).
  assert (HS : (2 ^ 46 <= S)%Z)
    by (unfold S; apply Z.pow_le_mono_r; unfold s; lia).
  assert (HS2 : S = (2 * 2 ^ (s - 1))%Z)
    by (unfold S; rewrite <- Z.pow_succ_r by (unfold s; lia);
        f_equal; lia).
  set (h := (2 ^ (s - 1))%Z) in *.
  assert (Hscaled : x / 2 ^ e == x * inject_Z S)
    by (apply div_pow2_neg; lia).
  set (m := roundEven (x / 2 ^ e)) in *.
  assert (Hm : inject_Z m - (1 # 2) <= x * inject_Z S
               <= inject_Z m + (1 # 2))
    by (rewrite <- Hscaled; apply roundEven_near).
  assert (Hval : binary64 x == inject_Z m / inject_Z S).
  { rewrite Hfl. unfold S. rewrite (pow2_Z s) by (unfold s; lia).
    unfold s. rewrite Qpower_opp.
    pose proof (pow2_pos e) as Hp. field. lra. }
  assert (HSq : 0 < inject_Z S)
    by (change 0 with (inject_Z 0); rewrite <- Zlt_Qlt; lia).
  assert (Hfloor : Qfloor (binary64 x + (1 # 2))
                   = ((2 * m + S) / (2 * S))%Z).
  { rewrite Zdiv_Qdiv. apply Qfloor_comp. rewrite Hval.
    rewrite inject_Z_plus, !inject_Z_mult. change (inject_Z 2) with 2.
    field. lra. }
  rewrite Hfloor.
  set (n := ((2 * a + b) / (2 * b))%Z).
  pose proof (Z.mul_div_le (2 * a + b) (2 * b) ltac:(lia)) as Hn1.
  pose proof (Z.mul_succ_div_gt (2 * a + b) (2 * b) ltac:(lia)) as Hn2.
  fold n in Hn1, Hn2.
  symmetry. apply (Z.div_unique_pos _ _ n (2 * m + S - n * (2 * S))); [| lia].
  assert (Hlow : ((2 * n - 1) * h <= m)%Z).
  { apply roundEven_ge. rewrite Hscaled.
    assert (Hq : inject_Z ((2 * n - 1) * h) * inject_Z b
                 <= x * inject_Z S * inject_Z b).
    { rewrite <- (Qmult_assoc x), (Qmult_comm (inject_Z S)), Qmult_assoc.
      rewrite HxB, <- !inject_Z_mult, <- Zle_Qle. rewrite HS2. nia. }
    apply Qmult_le_r in Hq; [exact Hq | exact HB]. }
  assert (Hhigh : (m < (2 * n + 1) * h)%Z).
  { assert (Hq : (x * inject_Z S + (1 # 2)) * inject_Z b
                 < inject_Z ((2 * n + 1) * h) * inject_Z b).
    { rewrite Qmult_plus_distr_l.
      rewrite <- (Qmult_assoc x), (Qmult_comm (inject_Z S)), Qmult_assoc.
      rewrite HxB.
      assert (Hz : (2 * (a * S) + b < 2 * ((2 * n + 1) * h * b))%Z)
        by (rewrite HS2 in *; nia).
      rewrite Zlt_Qlt in Hz.
      rewrite inject_Z_plus, !inject_Z_mult in Hz.
      rewrite !inject_Z_mult. change (inject_Z 2) with 2 in Hz. lra. }
    apply Qmult_lt_r in Hq; [| exact HB].
    assert (Hmq : inject_Z m < inject_Z ((2 * n + 1) * h)) by lra.
    rewrite <- Zlt_Qlt in Hmq. exact Hmq. }
  rewrite HS2. nia.
Qed.

End Doubles.

(** ** Upload and analyze gateway: properties *)

Section Gateway.

Lemma count_app (p : Effect -> bool) (tr tr' : list Effect) :
  count p (tr ++ tr') = (count p tr + count p tr')%nat.
Proof. unfold count. rewrite List.filter_app, length_app. reflexivity. Qed.

(** Rounding to nearest against rounding down. *)
Lemma round_vs_floor (a t : Z) :
  0 <= a -> 0 < t ->
  a / t <= (2 * a + t) / (2 * t) <= a / t + 1
  /\ ((2 * a + t) / (2 * t) = a / t <-> 2 * (a mod t) < t).
Proof.
  intros Ha Ht.
  pose proof (Z.div_mod a t ltac:(lia)) as Hdm.
  pose proof (Z.mod_pos_bound a t Ht) as Hr.
  set (q := a / t) in *. set (m := a mod t) in *.
  assert (Hsplit : (2 * a + t) / (2 * t) = q + (2 * m + t) / (2 * t)).
  { replace (2 * a + t) with (q * (2 * t) + (2 * m + t)) by lia.
    rewrite Z.div_add_l by lia. reflexivity. }
  rewrite Hsplit.
  destruct (Z_lt_le_dec (2 * m) t) as [Hlt|Hge].
  - rewrite (Z.div_small (2 * m + t) (2 * t)) by lia. lia.
  - assert ((2 * m + t) / (2 * t) = 1) as ->; [| lia].
    symmetry. apply (Z.div_unique _ _ 1 (2 * m - t)); lia.
Qed.

(** Below 2^45 bytes the doubles lose nothing: the reported value is the
    exact quotient rounded to the nearest integer. *)
Lemma percentCompleted_known (ev : ProgressEvent) (t : N) :
  total ev = Some t -> (0 < t)%N ->
  (loaded ev <= t)%N -> (t < 2 ^ 45)%N ->
  percentCompleted ev
  = Int ((2 * (Z.of_N (loaded ev) * 100) + Z.of_N t) / (2 * Z.of_N t)).
Proof.
  intros Ht Hpos Hle Hbound. unfold percentCompleted. rewrite Ht.
  change (2 ^ 45)%N with 35184372088832%N in Hbound.
  destruct t as [|p] eqn:Et; [lia |]. rewrite <- Et in *. clear Et p.
  set (l := Z.of_N (loaded ev)). set (n := Z.of_N t).
  assert (Hl : 0 <= l <= n) by lia.
  assert (Hn : 0 < n < 35184372088832) by lia.
  f_equal. unfold Math_round, toNumber. fold l n.
  rewrite <- (round_binary64_quotient (l * 100) n);
    [| lia | change (2 ^ 46) with 70368744177664; lia | lia].
  apply Qfloor_comp.
  rewrite (binary64_exact l)
    by (change (2 ^ 53) with 9007199254740992; lia).
  rewrite (binary64_exact n)
    by (change (2 ^ 53) with 9007199254740992; lia).
  assert (Hprod : (inject_Z l * 100 == inject_Z (l * 100))%Q)
    by (rewrite inject_Z_mult; reflexivity).
  rewrite Hprod.
  rewrite (binary64_exact (l * 100))
    by (change (2 ^ 53) with 9007199254740992; lia).
  reflexivity.
Qed.

(** Beyond that bound the double quotient can fall on the other side of a
    half: 181551359978426 of 281474976710738 bytes is below 64.5 %, the
    double quotient is 64.5, and 65 is reported. *)
Lemma percentCompleted_large :
  percentCompleted
    {| loaded := 181551359978426; total := Some 281474976710738%N |}
  = Int 65
  /\ (2 * (181551359978426 * 100) + 281474976710738)
     / (2 * 281474976710738) = 64.
Proof. split; vm_compute; reflexivity. Qed.

Lemma onUploadProgress_sets (ev : ProgressEvent) (st : State) :
  uploadProgress (exec (onUploadProgress ev) st) = percentCompleted ev.
Proof. reflexivity. Qed.

(** C2, as stated, fails: for 2 bytes sent out of 3 the callback reports
    67, and floor(2 * 100 / 3) is 66. *)
Lemma reported_progress_is_not_floor :
  ~ (forall (st : State) (ev : ProgressEvent) (t : N),
       total ev = Some t -> (0 < t)%N ->
       uploadProgress (exec (onUploadProgress ev) st)
       = Int (spec_UploadProgress (loaded ev) t)).
Proof.
  intros H.
  specialize (H initial {| loaded := 2; total := Some 3%N |} 3%N
                eq_refl eq_refl).
  vm_compute in H. discriminate H.
Qed.

(** C2, amended: with the total known, positive and below 2^45 bytes,
    and no more bytes sent than the total, the reported value is
    bytes_sent * 100 / bytes_total rounded to the nearest integer, a tie
    going up; it is the floor or the floor plus one, and it is the floor
    exactly when the remainder is below half of bytes_total. *)
Theorem reported_progress_is_rounded
    (st : State) (ev : ProgressEvent) (t : N) :
  total ev = Some t -> (0 < t)%N ->
  (loaded ev <= t)%N -> (t < 2 ^ 45)%N ->
  let reported :=
    (2 * (Z.of_N (loaded ev) * 100) + Z.of_N t) / (2 * Z.of_N t) in
  uploadProgress (exec (onUploadProgress ev) st) = Int reported
  /\ spec_UploadProgress (loaded ev) t <= reported
     <= spec_UploadProgress (loaded ev) t + 1
  /\ (reported = spec_UploadProgress (loaded ev) t
      <-> 2 * ((Z.of_N (loaded ev) * 100) mod Z.of_N t) < Z.of_N t).
Proof.
  intros Ht Hpos Hle Hbound reported. subst reported.
  rewrite onUploadProgress_sets,
    (percentCompleted_known ev t Ht Hpos Hle Hbound).
  split; [reflexivity |].
  unfold spec_UploadProgress. apply round_vs_floor; lia.
Qed.

Lemma reported_progress_is_rounded_witness :
  uploadProgress
    (exec (onUploadProgress {| loaded := 2; total := Some 3%N |}) initial)
  = Int 67.
Proof.
  apply (reported_progress_is_rounded initial
           {| loaded := 2; total := Some 3%N |} 3%N);
    [reflexivity | lia | simpl; lia | reflexivity].
Defined.

Lemma setUploadProgress_same (st : State) :
  exec (setUploadProgress (uploadProgress st)) st = st.
Proof. destruct st; reflexivity. Qed.

Lemma setUploadProgress_twice (p q : number) (st : State) :
  exec (setUploadProgress q) (exec (setUploadProgress p) st)
  = exec (setUploadProgress q) st.
Proof. destruct st; reflexivity. Qed.

(** Progress callbacks touch [uploadProgress] only. *)
Lemma forEach_onUploadProgress (events : list ProgressEvent) (st : State) :
  exists p,
    forEach events onUploadProgress st = (tt, exec (setUploadProgress p) st).
Proof.
  revert st. induction events as [|ev events IH]; intros st.
  - exists (uploadProgress st). rewrite setUploadProgress_same. reflexivity.
  - destruct (IH (exec (onUploadProgress ev) st)) as [p Hp].
    exists p. simpl. unfold mbind, M_bind, onUploadProgress in *.
    change (setUploadProgress (percentCompleted ev) st)
      with (tt, exec (setUploadProgress (percentCompleted ev)) st).
    cbv beta iota. rewrite Hp, setUploadProgress_twice. reflexivity.
Qed.

(** With a file selected, a complete call posts once and then settles. *)
Lemma analyzeForm_with_file
    (events : list ProgressEvent) (outcome : Outcome)
    (st : State) (file : File) :
  videoFile st = Some file ->
  exec (analyzeForm events outcome) st
  = exec (analyzeForm_settle outcome) (exec (perform (posted file st)) st).
Proof.
  intros Hf. unfold analyzeForm, analyzeForm_request, exec.
  unfold mbind, M_bind, gets. cbv beta iota. rewrite Hf. cbn.
  match goal with
  | |- context [forEach events onUploadProgress ?s] =>
      destruct (forEach_onUploadProgress events s) as [p ->]
  end.
  destruct outcome, st; reflexivity.
Qed.


Lemma analyzeForm_settle_clears (outcome : Outcome) (st : State) :
  loading (exec (analyzeForm_settle outcome) st) = false
  /\ uploadProgress (exec (analyzeForm_settle outcome) st) = Int 0.
Proof. destruct outcome, st; split; reflexivity. Qed.

Lemma analyzeForm_settle_rejected (error : string) (st : State) :
  trace (exec (analyzeForm_settle (Rejected error)) st)
  = trace st ++ [ConsoleError "Analysis failed:" error;
                 Alert "Analysis failed. Please try again."]
  /\ analysis (exec (analyzeForm_settle (Rejected error)) st) = analysis st.
Proof.
  destruct st; split; [| reflexivity].
  unfold exec, analyzeForm_settle, mbind, M_bind, perform, modify. cbn.
  rewrite <- app_assoc. reflexivity.
Qed.

Lemma analyzeForm_settle_resolved (data : ResponseData) (st : State) :
  trace (exec (analyzeForm_settle (Resolved data)) st) = trace st
  /\ analysis (exec (analyzeForm_settle (Resolved data)) st) = Some data.
Proof. destruct st; split; reflexivity. Qed.

Lemma perform_trace (e : Effect) (st : State) :
  trace (exec (perform e) st) = trace st ++ [e]
  /\ analysis (exec (perform e) st) = analysis st.
Proof. destruct st; split; reflexivity. Qed.

(** C1, as stated, fails for a malformed body: a 2xx reply that cannot
    be parsed resolves the promise, so [catch] is not entered; no alert
    is raised and the raw body replaces the stored analysis. *)
Lemma malformed_body_is_stored :
  ~ (forall (st : State) (file : File)
            (events : list ProgressEvent) (outcome : Outcome),
       videoFile st = Some file -> spec_AnalysisFailed outcome ->
       let st' := exec (analyzeForm events outcome) st in
       loading st' = false
       /\ uploadProgress st' = Int 0
       /\ alerts (trace st') = S (alerts (trace st))
       /\ analysis st' = analysis st).
Proof.
  intros H.
  specialize (H reportShown clip []
                (Resolved (Unparsed "{overall_score: 7")) eq_refl I).
  cbv zeta in H. destruct H as (_ & _ & _ & Hkept).
  vm_compute in Hkept. discriminate Hkept.
Qed.

(** C1, amended: a call of [analyzeForm] with a file selected ends,
    whatever the outcome, with [loading] false and [uploadProgress] 0,
    having posted exactly one request; when the promise is rejected
    (network error, non-2xx response), exactly one alert is raised, the
    stored analysis is the prior one, and nothing is sent again; when the
    promise resolves, also with a body that could not be parsed, no alert
    is raised and the response data is stored as received. *)
Theorem analyzeForm_settles
    (st : State) (file : File)
    (events : list ProgressEvent) (outcome : Outcome) :
  videoFile st = Some file ->
  let st' := exec (analyzeForm events outcome) st in
  loading st' = false
  /\ uploadProgress st' = Int 0
  /\ requests (trace st') = S (requests (trace st))
  /\ (forall error, outcome = Rejected error ->
        trace st'
        = trace st ++ [posted file st;
                       ConsoleError "Analysis failed:" error;
                       Alert "Analysis failed. Please try again."]
        /\ alerts (trace st') = S (alerts (trace st))
        /\ analysis st' = analysis st)
  /\ (forall data : ResponseData, outcome = Resolved data ->
        alerts (trace st') = alerts (trace st)
        /\ analysis st' = Some data).
Proof.
  intros Hf st'. subst st'. rewrite (analyzeForm_with_file _ _ _ _ Hf).
  set (sent := exec (perform (posted file st)) st).
  destruct (analyzeForm_settle_clears outcome sent) as [Hl Hp].
  destruct (perform_trace (posted file st) st) as [Htr Han].
  fold sent in Htr, Han.
  split; [exact Hl |]. split; [exact Hp |].
  assert (Hrej : forall error, outcome = Rejected error ->
            trace (exec (analyzeForm_settle outcome) sent)
            = trace st ++ [posted file st;
                           ConsoleError "Analysis failed:" error;
                           Alert "Analysis failed. Please try again."]
            /\ analysis (exec (analyzeForm_settle outcome) sent)
               = analysis st).
  { intros error ->.
    destruct (analyzeForm_settle_rejected error sent) as [-> ->].
    rewrite Htr, Han, <- app_assoc. split; reflexivity. }
  assert (Hres : forall data, outcome = Resolved data ->
            trace (exec (analyzeForm_settle outcome) sent)
            = trace st ++ [posted file st]
            /\ analysis (exec (analyzeForm_settle outcome) sent)
               = Some data).
  { intros data ->.
    destruct (analyzeForm_settle_resolved data sent) as [-> ->].
    rewrite Htr. split; reflexivity. }
  split; [| split].
  - destruct outcome as [data|error].
    + destruct (Hres data eq_refl) as [-> _].
      unfold requests. rewrite count_app. unfold posted. cbn. lia.
    + destruct (Hrej error eq_refl) as [-> _].
      unfold requests. rewrite count_app. unfold posted. cbn. lia.
  - intros error He. destruct (Hrej error He) as [Ht Ha].
    split; [exact Ht |]. split; [| exact Ha].
    rewrite Ht. unfold alerts. rewrite count_app. unfold posted. cbn. lia.
  - intros data He. destruct (Hres data He) as [Ht Ha].
    split; [| exact Ha].
    rewrite Ht. unfold alerts. rewrite count_app. unfold posted. cbn. lia.
Qed.

Lemma analyzeForm_settles_witness :
  let failed :=
    exec (analyzeForm [{| loaded := 2; total := Some 3%N |}]
            (Rejected "Request failed with status code 500")) reportShown in
  let garbled :=
    exec (analyzeForm [] (Resolved (Unparsed "{overall_score: 7")))
      reportShown in
  loading failed = false
  /\ uploadProgress failed = Int 0
  /\ alerts (trace failed) = S (alerts (trace reportShown))
  /\ analysis failed = Some (Json pushupReport)
  /\ alerts (trace garbled) = alerts (trace reportShown)
  /\ analysis garbled = Some (Unparsed "{overall_score: 7").
Proof.
  destruct (analyzeForm_settles reportShown clip
              [{| loaded := 2; total := Some 3%N |}]
              (Rejected "Request failed with status code 500") eq_refl)
    as (Hl & Hp & _ & Hrej & _).
  destruct (Hrej _ eq_refl) as (_ & Hal & Han).
  destruct (analyzeForm_settles reportShown clip []
              (Resolved (Unparsed "{overall_score: 7")) eq_refl)
    as (_ & _ & _ & _ & Hres).
  destruct (Hres _ eq_refl) as (Hal' & Han').
  cbv zeta.
  split; [exact Hl |]. split; [exact Hp |]. split; [exact Hal |].
  split; [exact Han |]. split; [exact Hal' | exact Han'].
Defined.

Lemma analyzeForm_request_without_file (st : State) :
  videoFile st = None -> analyzeForm_request st = (false, st).
Proof.
  intros Hf. unfold analyzeForm_request, mbind, M_bind, gets.
  cbv beta iota. rewrite Hf. reflexivity.
Qed.

(** C9: with no file selected, [analyzeForm] returns at once: no request
    is posted and the state, with [loading], [uploadProgress], the stored
    analysis and the trace of calls, is what it was; the Analyze button,
    being disabled, does nothing either. *)
Theorem analyzeForm_without_file
    (st : State) (events : list ProgressEvent) (outcome : Outcome) :
  videoFile st = None ->
  analyzeForm_request st = (false, st)
  /\ exec (analyzeForm events outcome) st = st
  /\ step st AnalyzeClick = st.
Proof.
  intros Hf. split; [exact (analyzeForm_request_without_file st Hf) |].
  split.
  - unfold analyzeForm, exec, mbind, M_bind.
    rewrite (analyzeForm_request_without_file st Hf). reflexivity.
  - unfold step, exec, dispatch, mbind, M_bind, gets, analyzeDisabled.
    cbv beta iota. rewrite Hf.
    destruct (mounted st); reflexivity.
Qed.

Lemma analyzeForm_without_file_witness :
  exec (analyzeForm [{| loaded := 1; total := Some 2%N |}]
          (Resolved pushupReport)) initial = initial
  /\ requests (trace (step initial AnalyzeClick)) = 0%nat.
Proof.
  destruct (analyzeForm_without_file initial
              [{| loaded := 1; total := Some 2%N |}]
              (Resolved pushupReport) eq_refl) as (_ & Hrun & Hclick).
  split; [exact Hrun |]. rewrite Hclick. reflexivity.
Defined.

End Gateway.

(** ** Input manager: properties *)

Section InputManager.

Lemma gets_bind {A B} (f : State -> A) (k : A -> M B) (st : State) :
  (gets f ≫= k) st = k (f st) st.
Proof. reflexivity. Qed.

Lemma exec_seq {B} (m : M unit) (k : M B) (st : State) :
  exec (m;; k) st = exec k (exec m st).
Proof.
  unfold exec, mbind, M_bind. destruct (m st) as [[] st']. reflexivity.
Qed.

(** Unfolds the handlers down to state updates and service calls. *)
Ltac unfold_handlers :=
  unfold handleDragEnter, handleDragLeave, handleDragOver, handleDrop,
    handleFileSelect, videoFileEffect, unmountCleanup, commit,
    replacePreviewUrl, resetFileInput, URL_createObjectURL,
    URL_revokeObjectURL, onUploadProgress, analyzeForm_request,
    analyzeForm_settle.

(** A state update that leaves the fields read by the predicate alone. *)
Ltac frame_update :=
  first [ unfold setVideoFile | unfold setExerciseType | unfold setAnalysis
        | unfold setLoading | unfold setUploadProgress
        | unfold setIsDragging | unfold setVideoRef
        | unfold setFileInputRef | unfold setVideoUrlRef
        | unfold setNextUrl | unfold setInflight | unfold setMounted
        | unfold perform ];
  apply preserves_modify; intros [] ?; assumption.

(** C8, as stated, fails: dropping an image while the drop zone is
    highlighted clears [isDragging], so the state does change. *)
Lemma rejected_drop_changes_drag_flag :
  ~ (forall (st : State) (file : File) (rest : list File),
       String.prefix "video/" (file_type file) = false ->
       step st (Drop (file :: rest)) = st).
Proof.
  intros H.
  specialize (H (step initial DragEnter) photo [] eq_refl).
  vm_compute in H. discriminate H.
Qed.

Lemma handleDrop_rejected (st : State) (file : File) (rest : list File) :
  String.prefix "video/" (file_type file) = false ->
  exec (handleDrop (file :: rest)) st = exec (setIsDragging false) st.
Proof.
  intros Hty. unfold handleDrop. rewrite exec_seq.
  change ((file :: rest) !! 0%nat) with (Some file).
  cbv beta iota. rewrite Hty. reflexivity.
Qed.

Lemma commit_unchanged (st : State) :
  let st' := exec (commit (videoFile st)) st in
  videoFile st' = videoFile st
  /\ videoUrlRef st' = videoUrlRef st
  /\ next_url st' = next_url st
  /\ trace st' = trace st
  /\ isDragging st' = isDragging st.
Proof.
  unfold commit, exec. rewrite !gets_bind.
  destruct st as [vf ? ? ? ? ? vr ? ? ? ? ? ?]; simpl.
  destruct vf, vr; unfold mbind, M_bind; simpl;
    try case_decide; try congruence; repeat split.
Qed.

Lemma step_rejected_drop (st : State) (file : File) (rest : list File) :
  String.prefix "video/" (file_type file) = false ->
  step st (Drop (file :: rest))
  = if mounted st
    then exec (commit (videoFile st)) (exec (setIsDragging false) st)
    else st.
Proof.
  intros Hty. unfold step, dispatch, exec at 1. rewrite !gets_bind.
  destruct (mounted st); [| reflexivity].
  fold (exec (handleDrop (file :: rest);; commit (videoFile st)) st).
  rewrite exec_seq, (handleDrop_rejected st file rest Hty). reflexivity.
Qed.

(** C8, amended: dropping a file whose type does not start with "video/"
    only clears the [isDragging] flag: the selection, the preview handle
    and the URL supply are what they were, and no service is called, so
    no handle is created and no alert raised. *)
Theorem rejected_drop_only_clears_drag_flag
    (st : State) (file : File) (rest : list File) :
  String.prefix "video/" (file_type file) = false ->
  exec (handleDrop (file :: rest)) st = exec (setIsDragging false) st
  /\ (let st' := step st (Drop (file :: rest)) in
      videoFile st' = videoFile st
      /\ videoUrlRef st' = videoUrlRef st
      /\ next_url st' = next_url st
      /\ trace st' = trace st
      /\ isDragging st' = (isDragging st && negb (mounted st))).
Proof.
  intros Hty. split; [exact (handleDrop_rejected st file rest Hty) |].
  cbv zeta. rewrite (step_rejected_drop st file rest Hty).
  destruct (mounted st).
  - pose proof (commit_unchanged (exec (setIsDragging false) st)) as Hc.
    cbv zeta in Hc.
    change (videoFile (exec (setIsDragging false) st))
      with (videoFile st) in Hc.
    destruct Hc as (-> & -> & -> & -> & ->).
    rewrite andb_false_r. destruct st; repeat split.
  - rewrite andb_true_r. repeat split.
Qed.

Lemma rejected_drop_only_clears_drag_flag_witness :
  let st := step reportShown DragEnter in
  exec (handleDrop [photo]) st = exec (setIsDragging false) st
  /\ trace (step st (Drop [photo])) = trace st.
Proof.
  destruct (rejected_drop_only_clears_drag_flag
              (step reportShown DragEnter) photo [] eq_refl)
    as (Hh & _ & _ & _ & Htr & _).
  split; [exact Hh | exact Htr].
Defined.





Lemma run_app (evs evs' : list Event) (st : State) :
  run (evs ++ evs') st = run evs' (run evs st).
Proof. unfold run. apply fold_left_app. Qed.





(** *** The preview handle *)

Lemma prefix_snoc_inv {A} (pre tr : list A) (e : A) :
  pre `prefix_of` tr ++ [e] -> pre = tr ++ [e] \/ pre `prefix_of` tr.
Proof.
  intros [k Hk]. destruct k as [|x k _] using rev_ind.
  - left. rewrite app_nil_r in Hk. congruence.
  - right. rewrite app_assoc in Hk.
    apply app_inj_tail in Hk as [-> _]. by exists k.
Qed.

Lemma count_snoc (p : Effect -> bool) (tr : list Effect) (e : Effect) :
  count p (tr ++ [e]) = (count p tr + if p e then 1 else 0)%nat.
Proof. rewrite count_app. unfold count. simpl. destruct (p e); reflexivity. Qed.

Lemma liveHandles_snoc (tr : list Effect) (e : Effect) :
  liveHandles (tr ++ [e]) = applyEffect (liveHandles tr) e.
Proof. unfold liveHandles. rewrite fold_left_app. reflexivity. Qed.

Lemma tracks_nil : tracks [] ∅.
Proof.
  split; [| reflexivity | reflexivity].
  intros pre Hpre. apply prefix_nil_inv in Hpre as ->.
  split; [cbn; lia |]. cbn. rewrite size_empty. lia.
Qed.

Lemma tracks_size (tr : list Effect) (live : gset Url) :
  tracks tr live -> (size live <= 1)%nat.
Proof.
  intros [Hal Hlive _]. destruct (Hal tr) as [_ Hsz]; [reflexivity |].
  rewrite Hlive in Hsz. exact Hsz.
Qed.

Lemma tracks_snoc (tr : list Effect) (e : Effect) (live live' : gset Url) :
  tracks tr live ->
  applyEffect live e = live' ->
  (size live' <= 1)%nat ->
  creations (tr ++ [e]) = (releases (tr ++ [e]) + size live')%nat ->
  tracks (tr ++ [e]) live'.
Proof.
  intros [Hal Hlive Hbal] Happ Hsz Hbal'.
  assert (Hnow : liveHandles (tr ++ [e]) = live')
    by (rewrite liveHandles_snoc, Hlive; exact Happ).
  split; [| exact Hnow | exact Hbal'].
  intros pre Hpre. apply prefix_snoc_inv in Hpre as [->|Hpre].
  - split; [lia | rewrite Hnow; exact Hsz].
  - exact (Hal pre Hpre).
Qed.

Lemma tracks_neutral (tr : list Effect) (e : Effect) (live : gset Url) :
  isCreate e = false -> isRevoke e = false ->
  tracks tr live -> tracks (tr ++ [e]) live.
Proof.
  intros Hc Hr Ht. pose proof (tracks_size _ _ Ht) as Hsz.
  apply (tracks_snoc tr e live live Ht); [| exact Hsz |].
  - destruct e; simpl in *; congruence.
  - unfold creations, releases. rewrite !count_snoc, Hc, Hr.
    destruct Ht as [_ _ Hbal]. unfold creations, releases in Hbal. lia.
Qed.

Lemma tracks_create (tr : list Effect) (f : File) (u : Url) :
  tracks tr ∅ -> tracks (tr ++ [CreateObjectURL f u]) {[u]}.
Proof.
  intros Ht. apply (tracks_snoc tr _ ∅ {[u]} Ht).
  - simpl. apply (left_id_L ∅ (∪)).
  - rewrite size_singleton. lia.
  - unfold creations, releases. rewrite !count_snoc.
    cbn [isCreate isRevoke].
    destruct Ht as [_ _ Hbal]. unfold creations, releases in Hbal.
    rewrite size_empty in Hbal. rewrite size_singleton. lia.
Qed.

Lemma tracks_revoke (tr : list Effect) (u : Url) :
  tracks tr {[u]} -> tracks (tr ++ [RevokeObjectURL u]) ∅.
Proof.
  intros Ht. apply (tracks_snoc tr _ {[u]} ∅ Ht).
  - simpl. apply difference_diag_L.
  - rewrite size_empty. lia.
  - unfold creations, releases. rewrite !count_snoc.
    cbn [isCreate isRevoke].
    destruct Ht as [_ _ Hbal]. unfold creations, releases in Hbal.
    rewrite size_singleton in Hbal. rewrite size_empty. lia.
Qed.

(** Extends [tracks] along the calls a handler appends. *)
Ltac tracks_steps :=
  repeat first
    [ assumption
    | apply tracks_neutral; [reflexivity | reflexivity |]
    | apply tracks_create
    | apply tracks_revoke ].

Lemma Ready_replacePreviewUrl (file : File) :
  preserves Ready (replacePreviewUrl file).
Proof.
  intros st [Hm HI]. unfold Ready, Inv, currentHandle in *.
  destruct st as [? ? ? ? ? ? vr ? ref ? ? mt tr]. simpl in Hm, HI. subst mt.
  unfold replacePreviewUrl, URL_createObjectURL, URL_revokeObjectURL.
  unfold mbind, M_bind, mret, M_ret, gets, skip, perform, setNextUrl,
    setVideoUrlRef, setVideoRef, modify.
  destruct ref as [old|], vr as [v|]; cbn; (split; [reflexivity |]);
    tracks_steps.
Qed.

Lemma Ready_perform (e : Effect) :
  isCreate e = false -> isRevoke e = false -> preserves Ready (perform e).
Proof.
  intros Hc Hr st [Hm HI]. split.
  - destruct st; exact Hm.
  - unfold Inv, currentHandle in *. destruct st; cbn in *.
    apply tracks_neutral; assumption.
Qed.

Lemma Down_perform (e : Effect) :
  isCreate e = false -> isRevoke e = false -> preserves Down (perform e).
Proof.
  intros Hc Hr st [Hm HI]. split.
  - destruct st; exact Hm.
  - unfold Inv, currentHandle in *. destruct st; cbn in *.
    apply tracks_neutral; assumption.
Qed.

Ltac ready_leaf :=
  first [ apply Ready_replacePreviewUrl
        | apply Ready_perform; reflexivity
        | frame_update ].

Ltac down_leaf :=
  first [ apply Down_perform; reflexivity | frame_update ].

Lemma Ready_step (st : State) (ev : Event) :
  ev <> Unmount -> Ready st -> Ready (step st ev).
Proof.
  intros Hev HR. unfold step, exec.
  cut (preserves Ready (dispatch ev)); [intros Hp; exact (Hp st HR) |].
  unfold dispatch.
  destruct ev as [| | | files | files | value | | pe | outcome |];
    try congruence;
    unfold handleDragEnter, handleDragLeave, handleDragOver, handleDrop,
      handleFileSelect, videoFileEffect, commit, resetFileInput,
      onUploadProgress, analyzeForm_request, analyzeForm_settle;
    preserves_walk ready_leaf.
Qed.

Lemma Down_step (st : State) (ev : Event) : Down st -> Down (step st ev).
Proof.
  intros [Hm HI]. unfold step, exec, dispatch. rewrite !gets_bind, Hm.
  assert (HD : Down st) by (split; assumption).
  destruct ev as [| | | files | files | value | | pe | outcome |];
    try exact HD;
    match goal with
    | |- Down (snd (?m st)) =>
        cut (preserves Down m); [intros Hp; exact (Hp st HD) |]
    end;
    unfold onUploadProgress, analyzeForm_request, analyzeForm_settle;
    preserves_walk down_leaf.
Qed.

Lemma Down_unmount (st : State) : Ready st -> Down (step st Unmount).
Proof.
  intros [Hm HI]. unfold Down, Inv, currentHandle in *.
  destruct st as [? ? ? ? ? ? ? ? ref ? ? mt tr]. simpl in Hm, HI. subst mt.
  destruct ref as [u|]; cbn; (split; [reflexivity |]); tracks_steps.
Qed.

(** The resource invariant holds in every reachable state. *)
Lemma Inv_step (st : State) (ev : Event) : Inv st -> Inv (step st ev).
Proof.
  intros HI. destruct (mounted st) eqn:Hm.
  - assert (HR : Ready st) by (split; assumption).
    destruct ev;
      try (refine (proj2 (Ready_step st _ _ HR)); discriminate).
    exact (proj2 (Down_unmount st HR)).
  - exact (proj2 (Down_step st ev (conj Hm HI))).
Qed.

Lemma Inv_initial : Inv initial.
Proof. exact tracks_nil. Qed.

Lemma Inv_run (evs : list Event) (st : State) : Inv st -> Inv (run evs st).
Proof.
  revert st. induction evs as [|ev evs IH]; intros st HI; [exact HI |].
  simpl. apply IH, Inv_step, HI.
Qed.

Lemma Down_run (evs : list Event) (st : State) : Down st -> Down (run evs st).
Proof.
  revert st. induction evs as [|ev evs IH]; intros st HD; [exact HD |].
  simpl. apply IH, Down_step, HD.
Qed.

(** After teardown no handle is live and every creation is matched by a
    release. *)
Lemma unmounted_released (evs later : list Event) :
  let st := run (evs ++ Unmount :: later) initial in
  liveHandles (trace st) = ∅ /\ creations (trace st) = releases (trace st).
Proof.
  cbv zeta. rewrite run_app. simpl.
  set (st := run evs initial).
  assert (HD : Down (step st Unmount)).
  { pose proof (Inv_run evs initial Inv_initial) as HI. fold st in HI.
    destruct (mounted st) eqn:Hm.
    - apply Down_unmount. split; assumption.
    - apply Down_step. split; assumption. }
  destruct (Down_run later _ HD) as [Hm [_ Hlive Hbal]].
  unfold currentHandle in *. rewrite Hm in *.
  split; [exact Hlive |]. rewrite Hbal, size_empty. lia.
Qed.

Lemma replacePreviewUrl_sets (file : File) (st : State) :
  is_Some (videoUrlRef (exec (replacePreviewUrl file) st)).
Proof.
  unfold replacePreviewUrl, URL_createObjectURL, URL_revokeObjectURL, exec.
  unfold mbind, M_bind, mret, M_ret, gets, skip, perform, setNextUrl,
    setVideoUrlRef, setVideoRef, modify.
  destruct st as [? ? ? ? ? ? vr ? ref ? ? ? ?].
  destruct ref, vr; cbn; eauto.
Qed.

(** Once a handle is current, the handlers never clear [videoUrlRef]. *)
Ltac handle_leaf :=
  first [ frame_update
        | unfold setVideoUrlRef; apply preserves_modify;
          solve [intros; cbn; eauto] ].

Lemma handle_kept_after (previous : option File) :
  preserves (fun st => is_Some (videoUrlRef st))
    (resetFileInput;; commit previous).
Proof. unfold_handlers. preserves_walk handle_leaf. Qed.

Lemma step_FileSelect (st : State) (file : File) (rest : list File) :
  mounted st = true ->
  step st (FileSelect (file :: rest))
  = exec (resetFileInput;; commit (videoFile st))
      (exec (replacePreviewUrl file) (exec (setVideoFile (Some file)) st)).
Proof.
  intros Hm. unfold step, dispatch, exec at 1. rewrite !gets_bind, Hm.
  unfold handleFileSelect.
  change ((file :: rest) !! 0%nat) with (Some file). cbv beta iota.
  match goal with
  | |- snd (?m st) = _ => change (snd (m st)) with (exec m st)
  end.
  rewrite !exec_seq. reflexivity.
Qed.

Lemma step_Drop_video (st : State) (file : File) (rest : list File) :
  mounted st = true ->
  String.prefix "video/" (file_type file) = true ->
  step st (Drop (file :: rest))
  = exec (resetFileInput;; commit (videoFile st))
      (exec (replacePreviewUrl file)
         (exec (setIsDragging false;; setVideoFile (Some file)) st)).
Proof.
  intros Hm Hty. unfold step, dispatch, exec at 1. rewrite !gets_bind, Hm.
  unfold handleDrop.
  change ((file :: rest) !! 0%nat) with (Some file). cbv beta iota.
  rewrite Hty.
  match goal with
  | |- snd (?m st) = _ => change (snd (m st)) with (exec m st)
  end.
  rewrite !exec_seq. reflexivity.
Qed.

(** A successful selection, by the picker or by a drop of a video, leaves
    a current handle, and it is the one live handle. *)
Lemma selection_current (st : State) (ev : Event) (file : File)
    (rest : list File) :
  Inv st -> mounted st = true ->
  ev = FileSelect (file :: rest)
  \/ (ev = Drop (file :: rest)
      /\ String.prefix "video/" (file_type file) = true) ->
  exists u,
    videoUrlRef (step st ev) = Some u
    /\ liveHandles (trace (step st ev)) = {[u]}.
Proof.
  intros HI Hm Hev.
  assert (HR : Ready (step st ev)).
  { apply Ready_step; [| split; assumption].
    destruct Hev as [->|[-> _]]; discriminate. }
  assert (Hsome : is_Some (videoUrlRef (step st ev))).
  { destruct Hev as [->|[-> Hty]].
    - rewrite (step_FileSelect st file rest Hm).
      apply (preserves_exec _ _ (handle_kept_after (videoFile st))).
      apply replacePreviewUrl_sets.
    - rewrite (step_Drop_video st file rest Hm Hty).
      apply (preserves_exec _ _ (handle_kept_after (videoFile st))).
      apply replacePreviewUrl_sets. }
  destruct Hsome as [u Hu]. exists u. split; [exact Hu |].
  destruct HR as [Hm' [_ Hlive _]].
  rewrite Hlive. unfold currentHandle. rewrite Hm', Hu. reflexivity.
Qed.

(** Runs a selection event on a state given field by field, leaving the
    comparison of [File] objects for a case analysis. *)
Ltac compute_selection :=
  unfold step, exec, dispatch, handleDrop, handleFileSelect, commit,
    videoFileEffect, replacePreviewUrl, resetFileInput,
    URL_createObjectURL, URL_revokeObjectURL;
  unfold setVideoFile, setIsDragging, setVideoRef, setFileInputRef,
    setVideoUrlRef, setNextUrl, perform, modify, gets, skip, mbind,
    M_bind, mret, M_ret;
  cbn -[decide].

(** What a successful selection does to the handles: the calls it adds
    start by revoking the prior handle, if there is one, and include the
    creation, for the selected file, of the handle that ends up current,
    a URL not handed out before. *)
Lemma selection_trace (st : State) (ev : Event) (file : File)
    (rest : list File) :
  mounted st = true ->
  ev = FileSelect (file :: rest)
  \/ (ev = Drop (file :: rest)
      /\ String.prefix "video/" (file_type file) = true) ->
  exists delta u,
    trace (step st ev) = trace st ++ delta
    /\ videoUrlRef (step st ev) = Some u
    /\ In (CreateObjectURL file u) delta
    /\ (next_url st <= u)%nat
    /\ (forall old, videoUrlRef st = Some old ->
        exists later, delta = RevokeObjectURL old :: later)
    /\ (videoUrlRef st = None ->
        exists later, delta = CreateObjectURL file (next_url st) :: later).
Proof.
  intros Hm Hev.
  destruct st as [vf ? ? ? ? ? vr fi ref n ? mt tr]. simpl in Hm. subst mt.
  destruct Hev as [->|[-> Hty]];
    compute_selection; rewrite ?Hty; cbn -[decide];
    destruct ref as [old|], vr as [v|], fi as [i|]; cbn -[decide];
    try case_decide; cbn; rewrite <- ?app_assoc;
    do 2 eexists;
    (split; [reflexivity |]); (split; [reflexivity |]);
    (split; [simpl; intuition |]); (split; [lia |]);
    (split;
     [ intros o Ho;
       first [discriminate Ho | injection Ho as <-; eexists; reflexivity]
     | intros Hn; first [discriminate Hn | eexists; reflexivity] ]).
Qed.

Lemma handleFresh_step (st : State) (ev : Event) :
  handleFresh st -> handleFresh (step st ev).
Proof.
  intros HF.
  destruct ev as [| | | files | files | value | | pe | outcome |];
    try (match goal with
         | |- handleFresh (step st ?e) =>
             lazymatch e with
             | Drop _ => fail
             | FileSelect _ => fail
             | _ =>
                 cut (preserves handleFresh (dispatch e));
                 [ intros Hp; exact (Hp st HF)
                 | unfold dispatch; unfold_handlers;
                   preserves_walk frame_update ]
             end
         end).
  - destruct files as [|file rest];
      [| destruct (String.prefix "video/" (file_type file)) eqn:Hty];
      destruct st as [[f|] ? ? ? ? ? [v|] [i|] [old|] n ? [|] tr];
      unfold handleFresh in *; cbn in HF;
      compute_selection; rewrite ?Hty; cbn -[decide];
      try case_decide; cbn;
      intros u Hu;
      first [ discriminate Hu
            | injection Hu as <-;
              first [lia | specialize (HF _ eq_refl); lia] ].
  - destruct files as [|file rest];
      destruct st as [[f|] ? ? ? ? ? [v|] [i|] [old|] n ? [|] tr];
      unfold handleFresh in *; cbn in HF;
      compute_selection;
      try case_decide; cbn;
      intros u Hu;
      first [ discriminate Hu
            | injection Hu as <-;
              first [lia | specialize (HF _ eq_refl); lia] ].
Qed.

Lemma handleFresh_run (evs : list Event) : handleFresh (run evs initial).
Proof.
  assert (H : forall st, handleFresh st -> handleFresh (run evs st)).
  { induction evs as [|ev evs IH]; intros st HF; [exact HF |].
    simpl. apply IH, handleFresh_step, HF. }
  apply H. intros u Hu. discriminate Hu.
Qed.

(** C7: in every run of the component, at every point of the trace of
    browser calls at most one preview handle is live and creations exceed
    releases by at most one; a successful selection (picker, or drop of a
    video) first revokes the prior handle, if there is one, and then
    creates for the selected file a handle not handed out before, which
    ends up current and is the only live one, the prior one being
    released; after teardown no handle is live and creations equal
    releases. *)
Theorem one_preview_handle (events : list Event) :
  (forall pre : list Effect,
     pre `prefix_of` trace (run events initial) ->
     (creations pre <= releases pre + 1)%nat
     /\ (size (liveHandles pre) <= 1)%nat)
  /\ (forall (ev : Event) (file : File) (rest : list File),
        mounted (run events initial) = true ->
        ev = FileSelect (file :: rest)
        \/ (ev = Drop (file :: rest)
            /\ String.prefix "video/" (file_type file) = true) ->
        exists delta u,
          trace (step (run events initial) ev)
          = trace (run events initial) ++ delta
          /\ videoUrlRef (step (run events initial) ev) = Some u
          /\ liveHandles (trace (step (run events initial) ev)) = {[u]}
          /\ In (CreateObjectURL file u) delta
          /\ (next_url (run events initial) <= u)%nat
          /\ (videoUrlRef (run events initial) = None ->
              exists later,
                delta
                = CreateObjectURL file (next_url (run events initial))
                  :: later)
          /\ (forall old,
                videoUrlRef (run events initial) = Some old ->
                (exists later, delta = RevokeObjectURL old :: later)
                /\ old <> u
                /\ old ∉ liveHandles
                           (trace (step (run events initial) ev))))
  /\ (forall later : list Event,
        let st := run (events ++ Unmount :: later) initial in
        liveHandles (trace st) = ∅
        /\ creations (trace st) = releases (trace st)).
Proof.
  pose proof (Inv_run events initial Inv_initial) as HI.
  pose proof (handleFresh_run events) as HF.
  split; [| split].
  - intros pre Hpre. destruct HI as [Hal _ _]. exact (Hal pre Hpre).
  - intros ev file rest Hm Hev.
    destruct (selection_current _ ev file rest HI Hm Hev) as (u & Hu & Hl).
    destruct (selection_trace _ ev file rest Hm Hev)
      as (delta & u' & Htr & Hu' & Hin & Hnew & Hrev & Hfirst).
    assert (u' = u) as -> by congruence.
    exists delta, u.
    split; [exact Htr |]. split; [exact Hu |]. split; [exact Hl |].
    split; [exact Hin |]. split; [exact Hnew |]. split; [exact Hfirst |].
    intros old Hold. split; [exact (Hrev old Hold) |].
    assert (Hne : old <> u) by (specialize (HF old Hold); lia).
    split; [exact Hne |].
    rewrite Hl. intros Hmem. apply elem_of_singleton in Hmem.
    contradiction.
  - exact (unmounted_released events).
Qed.

Lemma one_preview_handle_witness :
  let st := run [FileSelect [clip]; Drop [photo]] initial in
  (creations (trace st) <= releases (trace st) + 1)%nat
  /\ (size (liveHandles (trace st)) <= 1)%nat
  /\ exists delta u later,
       trace (step st (Drop [retake])) = trace st ++ delta
       /\ liveHandles (trace (step st (Drop [retake]))) = {[u]}
       /\ In (CreateObjectURL retake u) delta
       /\ delta = RevokeObjectURL 1%nat :: later.
Proof.
  destruct (one_preview_handle [FileSelect [clip]; Drop [photo]])
    as (Hal & Hsel & _).
  destruct (Hal (trace (run [FileSelect [clip]; Drop [photo]] initial)))
    as [Hbal Hsz]; [reflexivity |].
  destruct (Hsel (Drop [retake]) retake [] eq_refl)
    as (delta & u & Htr & _ & Hl & Hin & _ & _ & Hold);
    [right; split; reflexivity |].
  destruct (Hold 1%nat eq_refl) as ((later & Hrev) & _).
  split; [exact Hbal |]. split; [exact Hsz |].
  exists delta, u, later. repeat split; assumption.
Defined.
End InputManager.

(** ** Upload progress: further properties *)

Section Progress.

Lemma percentCompleted_zero (ev : ProgressEvent) (t : N) :
  total ev = Some t -> (0 < t)%N ->
  (loaded ev <= t)%N -> (t < 2 ^ 45)%N ->
  exists p,
    percentCompleted ev = Int p
    /\ 0 <= p
    /\ (p = 0 <-> (200 * loaded ev < t)%N).
Proof.
  intros Ht Hpos Hle Hbound.
  rewrite (percentCompleted_known ev t Ht Hpos Hle Hbound).
  eexists. split; [reflexivity |].
  set (l := Z.of_N (loaded ev)). set (n := Z.of_N t).
  assert (Hl : 0 <= l) by lia. assert (Hn : 0 < n) by lia.
  assert (Hlo : 0 <= (2 * (l * 100) + n) / (2 * n))
    by (apply Z.div_pos; lia).
  split; [exact Hlo |]. split.
  - intros Hp.
    destruct (Z_lt_le_dec (200 * l) n) as [Hlt|Hge]; [lia |].
    assert (1 <= (2 * (l * 100) + n) / (2 * n)); [| lia].
    apply Z.div_le_lower_bound; lia.
  - intros Hlt. apply Z.div_small. lia.
Qed.

(** X1: with the total known, positive and below 2^45 bytes, and no more
    bytes sent than the total, the reported percentage is an integer from
    0 to 100; it is 100 as soon as 99.5 % of the bytes are sent, so also
    before the upload is complete, and it is 0 until 0.5 % are sent. *)
Theorem progress_within_percent (ev : ProgressEvent) (t : N) :
  total ev = Some t -> (0 < t)%N ->
  (loaded ev <= t)%N -> (t < 2 ^ 45)%N ->
  exists p,
    percentCompleted ev = Int p
    /\ 0 <= p <= 100
    /\ (p = 100 <-> (199 * t <= 200 * loaded ev)%N)
    /\ (p = 0 <-> (200 * loaded ev < t)%N).
Proof.
  intros Ht Hpos Hle Hbound.
  rewrite (percentCompleted_known ev t Ht Hpos Hle Hbound).
  eexists. split; [reflexivity |].
  set (l := Z.of_N (loaded ev)). set (n := Z.of_N t).
  assert (Hl : 0 <= l <= n) by lia. assert (Hn : 0 < n) by lia.
  assert (Hup : (2 * (l * 100) + n) / (2 * n) < 101)
    by (apply Z.div_lt_upper_bound; lia).
  assert (Hlo : 0 <= (2 * (l * 100) + n) / (2 * n))
    by (apply Z.div_pos; lia).
  split; [lia |]. split.
  - split.
    + intros Hp.
      pose proof (Z.mul_div_le (2 * (l * 100) + n) (2 * n) ltac:(lia)) as Hm.
      rewrite Hp in Hm. lia.
    + intros Hge.
      assert (100 <= (2 * (l * 100) + n) / (2 * n)); [| lia].
      apply Z.div_le_lower_bound; lia.
  - split.
    + intros Hp.
      destruct (Z_lt_le_dec (200 * l) n) as [Hlt|Hge]; [lia |].
      assert (1 <= (2 * (l * 100) + n) / (2 * n)); [| lia].
      apply Z.div_le_lower_bound; lia.
    + intros Hlt. apply Z.div_small. lia.
Qed.

Lemma progress_within_percent_witness :
  percentCompleted {| loaded := 199; total := Some 200%N |} = Int 100
  /\ percentCompleted {| loaded := 1; total := Some 201%N |} = Int 0.
Proof.
  destruct (progress_within_percent
              {| loaded := 199; total := Some 200%N |} 200%N)
    as (p & Hp & _ & Hfull & _);
    [reflexivity | lia | simpl; lia | reflexivity |].
  destruct (progress_within_percent
              {| loaded := 1; total := Some 201%N |} 201%N)
    as (q & Hq & _ & _ & Hnone);
    [reflexivity | lia | simpl; lia | reflexivity |].
  rewrite Hp, Hq. split; f_equal.
  - apply Hfull. simpl. lia.
  - apply Hnone. simpl. lia.
Defined.

Lemma toNumber_mono (n n' : N) :
  (n <= n')%N -> (toNumber n <= toNumber n')%Q.
Proof.
  intros H. apply binary64_mono. rewrite <- Zle_Qle. lia.
Qed.

Lemma toNumber_pos (n : N) : (0 < n)%N -> (0 < toNumber n)%Q.
Proof.
  intros H. apply binary64_pos. change 0%Q with (inject_Z 0).
  rewrite <- Zlt_Qlt. lia.
Qed.

(** X2: for a fixed positive total, the reported percentage never
    decreases when more bytes are sent. *)
Theorem progress_monotone (ev ev' : ProgressEvent) (t : N) :
  total ev = Some t -> total ev' = Some t -> (0 < t)%N ->
  (loaded ev <= loaded ev')%N ->
  exists p p',
    percentCompleted ev = Int p /\ percentCompleted ev' = Int p'
    /\ p <= p'.
Proof.
  intros Ht Ht' Hpos Hle. destruct t as [|q]; [lia |].
  unfold percentCompleted. rewrite Ht, Ht'.
  do 2 eexists. split; [reflexivity |]. split; [reflexivity |].
  unfold Math_round. apply Qfloor_resp_le.
  apply Qplus_le_l. apply binary64_mono.
  pose proof (toNumber_pos (N.pos q) Hpos) as HT.
  apply Qmult_le_compat_r;
    [| apply Qlt_le_weak, Qinv_lt_0_compat, HT].
  apply binary64_mono.
  apply Qmult_le_compat_r; [| discriminate].
  apply toNumber_mono, Hle.
Qed.

Lemma progress_monotone_witness :
  exists p p',
    percentCompleted {| loaded := 10; total := Some 30%N |} = Int p
    /\ percentCompleted {| loaded := 20; total := Some 30%N |} = Int p'
    /\ p <= p'.
Proof.
  apply (progress_monotone {| loaded := 10; total := Some 30%N |}
           {| loaded := 20; total := Some 30%N |} 30%N);
    [reflexivity | reflexivity | lia | simpl; lia].
Defined.

Lemma progressBar_after (st : State) (ev : ProgressEvent) :
  loading st = true ->
  progressBar (exec (onUploadProgress ev) st)
  = if greaterThanZero (percentCompleted ev)
    then Some (percentCompleted ev) else None.
Proof.
  intros Hl. destruct st. simpl in Hl. subst. reflexivity.
Qed.

(** X3: while a request is loading, after a progress event the progress
    bar is hidden when the total is unknown (the percentage is NaN) or
    when 0 of 0 bytes are reported, and it shows Infinity for a positive
    count out of 0; for a positive total below 2^45 bytes, with no more
    bytes sent than the total, it is hidden exactly when less than 0.5 %
    is sent; whenever it is shown it shows the percentage of that
    event. *)
Theorem progress_bar_visibility (st : State) (ev : ProgressEvent) :
  loading st = true ->
  let st' := exec (onUploadProgress ev) st in
  (total ev = None -> progressBar st' = None)
  /\ (total ev = Some 0%N ->
      (loaded ev = 0%N -> progressBar st' = None)
      /\ ((0 < loaded ev)%N -> progressBar st' = Some Infinity))
  /\ (forall t, total ev = Some t -> (0 < t)%N ->
        (loaded ev <= t)%N -> (t < 2 ^ 45)%N ->
        (progressBar st' = None <-> (200 * loaded ev < t)%N))
  /\ (progressBar st' <> None ->
      progressBar st' = Some (percentCompleted ev)).
Proof.
  intros Hl st'. subst st'. rewrite (progressBar_after st ev Hl).
  split; [| split; [| split]].
  - intros Ht. unfold percentCompleted. rewrite Ht. reflexivity.
  - intros Ht. unfold percentCompleted. rewrite Ht. split.
    + intros ->. reflexivity.
    + intros Hpos.
      destruct (N.eqb_spec (loaded ev) 0%N) as [Hz|Hz]; [lia | reflexivity].
  - intros t Ht Hpos Hle Hbound.
    destruct (percentCompleted_zero ev t Ht Hpos Hle Hbound)
      as (p & -> & Hp0 & Hpz). simpl.
    destruct (Z.ltb_spec 0 p) as [Hlt|Hge].
    + split; [discriminate |]. intros Hsmall. apply Hpz in Hsmall. lia.
    + split; [| reflexivity]. intros _. apply Hpz. lia.
  - destruct (greaterThanZero (percentCompleted ev)); congruence.
Qed.

Lemma progress_bar_visibility_witness :
  progressBar
    (exec (onUploadProgress {| loaded := 5; total := None |})
       (step reportShown AnalyzeClick)) = None
  /\ progressBar
       (exec (onUploadProgress {| loaded := 5; total := Some 0%N |})
          (step reportShown AnalyzeClick)) = Some Infinity
  /\ progressBar
       (exec (onUploadProgress {| loaded := 1; total := Some 201%N |})
          (step reportShown AnalyzeClick)) = None.
Proof.
  destruct (progress_bar_visibility (step reportShown AnalyzeClick)
              {| loaded := 5; total := None |} eq_refl) as (Hhid & _).
  destruct (progress_bar_visibility (step reportShown AnalyzeClick)
              {| loaded := 5; total := Some 0%N |} eq_refl)
    as (_ & Hzero & _).
  destruct (progress_bar_visibility (step reportShown AnalyzeClick)
              {| loaded := 1; total := Some 201%N |} eq_refl)
    as (_ & _ & Hsmall & _).
  split; [apply Hhid; reflexivity |].
  split; [apply (proj2 (Hzero eq_refl)); simpl; lia |].
  apply (Hsmall 201%N); [reflexivity | lia | simpl; lia | reflexivity |].
  simpl. lia.
Defined.

End Progress.

(** ** Reachable states *)

(** Unfolds the handlers down to state updates and service calls. *)
Ltac unfold_component :=
  unfold handleDragEnter, handleDragLeave, handleDragOver, handleDrop,
    handleFileSelect, commit, videoFileEffect, unmountCleanup,
    replacePreviewUrl, resetFileInput, URL_createObjectURL,
    URL_revokeObjectURL, onUploadProgress, analyzeForm_request,
    analyzeForm_settle.

(** A state update outside the fields a predicate reads. *)
Ltac frame_setter :=
  first [ unfold setVideoFile | unfold setExerciseType | unfold setAnalysis
        | unfold setLoading | unfold setUploadProgress
        | unfold setIsDragging | unfold setVideoRef
        | unfold setFileInputRef | unfold setVideoUrlRef
        | unfold setNextUrl | unfold setInflight | unfold setMounted
        | unfold perform ];
  apply preserves_modify; intros [] ?; assumption.

(** Runs one event on a state given field by field. *)
Ltac compute_step :=
  unfold step, exec, dispatch, analyzeDisabled;
  unfold_component;
  unfold setVideoFile, setExerciseType, setAnalysis, setLoading,
    setUploadProgress, setIsDragging, setVideoRef, setFileInputRef,
    setVideoUrlRef, setNextUrl, setInflight, setMounted, perform, modify,
    gets, skip, mbind, M_bind, mret, M_ret;
  cbn.

(** The same, leaving the comparison of [File] objects for a case
    analysis. *)
Ltac compute_step_keep :=
  unfold step, exec, dispatch, analyzeDisabled;
  unfold_component;
  unfold setVideoFile, setExerciseType, setAnalysis, setLoading,
    setUploadProgress, setIsDragging, setVideoRef, setFileInputRef,
    setVideoUrlRef, setNextUrl, setInflight, setMounted, perform, modify,
    gets, skip, mbind, M_bind, mret, M_ret;
  cbn -[decide].

Section Reachable.

#[local] Arguments count : simpl never.

Lemma run_snoc (evs : list Event) (ev : Event) (st : State) :
  run (evs ++ [ev]) st = step (run evs st) ev.
Proof. rewrite run_app. reflexivity. Qed.

(** An invariant of [step] holds after every run from a state that has
    it. *)
Lemma run_invariant (P : State -> Prop) :
  (forall st ev, P st -> P (step st ev)) ->
  forall evs st, P st -> P (run evs st).
Proof.
  intros Hstep evs. induction evs as [|ev evs IH]; intros st HP; [exact HP |].
  simpl. apply IH, Hstep, HP.
Qed.

Lemma singleFlight_step (st : State) (ev : Event) :
  singleFlight st -> singleFlight (step st ev).
Proof.
  intros HS.
  destruct ev as [| | | files | files | value | | pe | outcome |];
    try (match goal with
         | |- singleFlight (step st ?e) =>
             lazymatch e with
             | AnalyzeClick => fail
             | UploadProgressed _ => fail
             | RequestSettled _ => fail
             | _ =>
                 cut (preserves singleFlight (dispatch e));
                 [ intros Hp; exact (Hp st HS)
                 | unfold dispatch; unfold_component;
                   preserves_walk frame_setter ]
             end
         end).
  - destruct st as [vf ? ? ld up ? ? ? ? ? n mt ?].
    unfold singleFlight in *. cbn in HS. destruct HS as [Hn Hup].
    compute_step. destruct vf, ld, mt; cbn; subst; split; auto; discriminate.
  - destruct st as [vf ? ? ld up ? ? ? ? ? n mt ?].
    unfold singleFlight in *. cbn in HS. destruct HS as [Hn Hup].
    compute_step. destruct n as [|n]; cbn; [split; assumption |].
    destruct ld; [split; [assumption | discriminate] | discriminate].
  - destruct st as [vf ? ? ld up ? ? ? ? ? n mt ?].
    unfold singleFlight in *. cbn in HS. destruct HS as [Hn Hup].
    compute_step. destruct n as [|n]; cbn; [split; assumption |].
    destruct ld; [| discriminate]. injection Hn as ->.
    destruct outcome; cbn; split; reflexivity.
Qed.

Lemma click_while_loading (st : State) :
  loading st = true -> step st AnalyzeClick = st.
Proof.
  intros Hl. destruct st as [vf ? ? ld ? ? ? ? ? ? ? mt ?].
  simpl in Hl. subst ld. compute_step. destruct vf, mt; reflexivity.
Qed.

(** X4: in every reachable state at most one request is in flight, the
    loading flag is set exactly while one is, the Analyze button is then
    disabled, and a click on it changes nothing, so requests never
    overlap. *)
Theorem one_request_in_flight (evs : list Event) :
  let st := run evs initial in
  (inflight st <= 1)%nat
  /\ (loading st = true <-> inflight st = 1%nat)
  /\ (loading st = true ->
      analyzeDisabled st = true /\ step st AnalyzeClick = st).
Proof.
  cbv zeta.
  assert (HS : singleFlight (run evs initial)).
  { apply (run_invariant singleFlight singleFlight_step).
    split; [reflexivity | reflexivity]. }
  destruct HS as [Hn _].
  destruct (loading (run evs initial)) eqn:Hl; rewrite Hn.
  - split; [lia |]. split; [tauto |]. intros _. split.
    + unfold analyzeDisabled. rewrite Hl. apply orb_true_r.
    + apply click_while_loading, Hl.
  - split; [lia |]. split; [| discriminate].
    split; [discriminate | lia].
Qed.

Lemma one_request_in_flight_witness :
  let st := run [FileSelect [clip]; AnalyzeClick] initial in
  inflight st = 1%nat /\ step st AnalyzeClick = st.
Proof.
  destruct (one_request_in_flight [FileSelect [clip]; AnalyzeClick])
    as (_ & Hiff & Hclick).
  split.
  - apply Hiff. reflexivity.
  - apply Hclick. reflexivity.
Defined.

(** X5: in every reachable state in which no request is loading the
    upload progress is 0, and the progress bar is shown only while a
    request is in flight. *)
Theorem idle_progress_is_zero (evs : list Event) :
  let st := run evs initial in
  (loading st = false -> uploadProgress st = Int 0)
  /\ (progressBar st <> None -> inflight st = 1%nat).
Proof.
  cbv zeta.
  assert (HS : singleFlight (run evs initial)).
  { apply (run_invariant singleFlight singleFlight_step).
    split; [reflexivity | reflexivity]. }
  destruct HS as [Hn Hup]. split; [exact Hup |].
  unfold progressBar. rewrite Hn.
  destruct (loading (run evs initial)); [reflexivity |].
  simpl. congruence.
Qed.

Lemma idle_progress_is_zero_witness :
  uploadProgress
    (run [FileSelect [clip]; AnalyzeClick;
          UploadProgressed {| loaded := 2; total := Some 3%N |};
          RequestSettled (Rejected "Network Error")] initial)
  = Int 0.
Proof.
  apply (idle_progress_is_zero
           [FileSelect [clip]; AnalyzeClick;
            UploadProgressed {| loaded := 2; total := Some 3%N |};
            RequestSettled (Rejected "Network Error")]).
  reflexivity.
Defined.

Lemma accounted_perform (e : Effect) :
  isAlert e = false -> isRequest e = false ->
  preserves accounted (perform e).
Proof.
  intros Ha Hr [] H. unfold accounted, alerts, requests in *. cbn in *.
  rewrite !count_snoc, Ha, Hr. lia.
Qed.

Ltac accounted_leaf :=
  first [ frame_setter | apply accounted_perform; reflexivity ].

Lemma accounted_step (st : State) (ev : Event) :
  accounted st -> accounted (step st ev).
Proof.
  intros HA.
  destruct ev as [| | | files | files | value | | pe | outcome |];
    try (match goal with
         | |- accounted (step st ?e) =>
             lazymatch e with
             | AnalyzeClick => fail
             | UploadProgressed _ => fail
             | RequestSettled _ => fail
             | _ =>
                 cut (preserves accounted (dispatch e));
                 [ intros Hp; exact (Hp st HA)
                 | unfold dispatch; unfold_component;
                   preserves_walk accounted_leaf ]
             end
         end).
  - destruct st as [vf ? ? ld ? ? ? ? ? ? n mt tr].
    unfold accounted, alerts, requests in *. cbn in HA.
    compute_step. destruct vf, ld, mt; cbn; try exact HA.
    rewrite !count_snoc. cbn. lia.
  - destruct st as [vf ? ? ld ? ? ? ? ? ? n mt tr].
    unfold accounted, alerts, requests in *. cbn in HA.
    compute_step. destruct n; cbn; exact HA.
  - destruct st as [vf ? ? ld ? ? ? ? ? ? n mt tr].
    unfold accounted, alerts, requests in *. cbn in HA.
    compute_step. destruct n as [|n]; cbn; [exact HA |].
    destruct outcome; cbn; [lia |].
    rewrite !count_snoc. cbn. lia.
Qed.

Lemma alerts_perform (k : nat) (e : Effect) :
  isAlert e = false ->
  preserves (fun st => alerts (trace st) = k) (perform e).
Proof.
  intros Ha [] H. unfold alerts in *. cbn in *.
  rewrite count_snoc, Ha. lia.
Qed.

Ltac alerts_leaf :=
  first [ frame_setter | apply alerts_perform; reflexivity ].

Lemma step_alerts (st : State) (ev : Event) :
  alerts (trace (step st ev)) = (alerts (trace st) + alertsOf st ev)%nat.
Proof.
  destruct ev as [| | | files | files | value | | pe | [data|error] |];
    try (match goal with
         | |- alerts (trace (step st ?e)) = _ =>
             lazymatch e with
             | RequestSettled (Rejected _) => fail
             | _ =>
                 unfold alertsOf; cbn [isRejection andb];
                 rewrite Nat.add_0_r;
                 cut (preserves
                        (fun s => alerts (trace s) = alerts (trace st))
                        (dispatch e));
                 [ intros Hp; exact (Hp st eq_refl)
                 | unfold dispatch; unfold_component;
                   preserves_walk alerts_leaf ]
             end
         end).
  destruct st as [? ? ? ? ? ? ? ? ? ? n ? tr].
  unfold alertsOf, alerts. compute_step.
  destruct n as [|n]; cbn; [lia |].
  rewrite !count_snoc. cbn. lia.
Qed.

Lemma run_alerts (evs : list Event) (st : State) :
  (alerts (trace (run evs st))
   <= alerts (trace st) + length (List.filter isRejection evs))%nat.
Proof.
  revert st. induction evs as [|ev evs IH]; intros st; simpl; [lia |].
  specialize (IH (step st ev)). rewrite step_alerts in IH.
  unfold alertsOf in IH.
  destruct (isRejection ev); simpl in *;
    [destruct (inflight st =? 0)%nat; simpl in *; lia | lia].
Qed.

(** X6: an alert is raised exactly when a request that is in flight is
    rejected, one per rejection, and by no other event; so over a run
    the alerts never exceed the rejected settlements, and together with
    the requests still in flight they never exceed the requests
    posted. *)
Theorem alerts_answer_requests :
  (forall (st : State) (ev : Event),
     alerts (trace (step st ev))
     = (alerts (trace st)
        + if isRejection ev && negb (inflight st =? 0)%nat
          then 1 else 0)%nat)
  /\ (forall evs : list Event,
        let st := run evs initial in
        (alerts (trace st) <= length (List.filter isRejection evs))%nat
        /\ (alerts (trace st) + inflight st <= requests (trace st))%nat).
Proof.
  split; [exact step_alerts |].
  intros evs. cbv zeta. split.
  - exact (run_alerts evs initial).
  - apply (run_invariant accounted accounted_step).
    unfold accounted, alerts, requests, count. simpl. lia.
Qed.

Lemma previewCurrent_step (st : State) (ev : Event) :
  previewCurrent st -> previewCurrent (step st ev).
Proof.
  intros HP.
  destruct ev as [| | | files | files | value | | pe | outcome |];
    try (match goal with
         | |- previewCurrent (step st ?e) =>
             lazymatch e with
             | Drop _ => fail
             | FileSelect _ => fail
             | _ =>
                 cut (preserves previewCurrent (dispatch e));
                 [ intros Hp; exact (Hp st HP)
                 | unfold dispatch; unfold_component;
                   preserves_walk frame_setter ]
             end
         end).
  - destruct files as [|file rest];
      [| destruct (String.prefix "video/" (file_type file)) eqn:Hty];
      destruct st as [[f|] ? ? ? ? ? vr [fi|] ref ? ? [|] ?];
      unfold previewCurrent in *; cbn in HP;
      try (destruct HP as (u & -> & ->));
      try (destruct HP as [-> ->]);
      compute_step_keep; rewrite ?Hty; cbn -[decide];
      eauto; try case_decide; try congruence; cbn; eauto.
  - destruct files as [|file rest];
      destruct st as [[f|] ? ? ? ? ? vr [fi|] ref ? ? [|] ?];
      unfold previewCurrent in *; cbn in HP;
      try (destruct HP as (u & -> & ->));
      try (destruct HP as [-> ->]);
      compute_step_keep;
      eauto; try case_decide; try congruence; cbn; eauto.
Qed.

Lemma previewCurrent_run (evs : list Event) :
  previewCurrent (run evs initial).
Proof.
  apply (run_invariant previewCurrent previewCurrent_step).
  split; reflexivity.
Qed.

(** X7: in every reachable state of the mounted component, no preview
    handle exists while no file is selected, and while one is selected
    the [<video>] element plays the URL held by [videoUrlRef], which is
    the one live handle: the preview never points at a revoked URL. *)
Theorem preview_plays_live_handle (evs : list Event) :
  let st := run evs initial in
  mounted st = true ->
  (videoFile st = None ->
   videoRef st = None /\ liveHandles (trace st) = ∅)
  /\ (forall file, videoFile st = Some file ->
      exists u,
        videoUrlRef st = Some u
        /\ videoRef st = Some {| src := Some u |}
        /\ liveHandles (trace st) = {[u]}).
Proof.
  cbv zeta. intros Hm.
  pose proof (previewCurrent_run evs) as HP.
  destruct (Inv_run evs initial Inv_initial) as [_ Hlive _].
  unfold previewCurrent in HP. unfold currentHandle in Hlive.
  rewrite Hm in Hlive. split.
  - intros Hf. rewrite Hf in HP. destruct HP as [Hv Hu].
    rewrite Hu in Hlive. split; assumption.
  - intros file Hf. rewrite Hf in HP. destruct HP as (u & Hu & Hv).
    rewrite Hu in Hlive. exists u. repeat split; assumption.
Qed.

Lemma preview_plays_live_handle_witness :
  exists u,
    videoRef (run [FileSelect [clip]; Drop [retake]] initial)
    = Some {| src := Some u |}
    /\ liveHandles (trace (run [FileSelect [clip]; Drop [retake]] initial))
       = {[u]}.
Proof.
  destruct (preview_plays_live_handle [FileSelect [clip]; Drop [retake]]
              eq_refl) as [_ Hsel].
  destruct (Hsel retake eq_refl) as (u & _ & Hv & Hl).
  exists u. split; assumption.
Defined.

Lemma commit_noop (st : State) :
  previewCurrent st -> exec (commit (videoFile st)) st = st.
Proof.
  destruct st as [[f|] ? ? ? ? ? vr ? ref ? ? ? ?];
    unfold previewCurrent; cbn; intros HP;
    try (destruct HP as (u & -> & ->));
    try (destruct HP as [-> ->]);
    compute_step_keep; try case_decide; try congruence; reflexivity.
Qed.

Lemma setIsDragging_previewCurrent (b : bool) (st : State) :
  previewCurrent st -> previewCurrent (exec (setIsDragging b) st).
Proof. destruct st. intros HP. exact HP. Qed.

Lemma step_empty_selection (st : State) :
  previewCurrent st -> step st (FileSelect []) = st.
Proof.
  intros HP. unfold step, dispatch, exec at 1. rewrite !gets_bind.
  destruct (mounted st); [| reflexivity].
  change (snd ((handleFileSelect [];; commit (videoFile st)) st))
    with (exec (handleFileSelect [];; commit (videoFile st)) st).
  rewrite exec_seq. change (exec (handleFileSelect []) st) with st.
  apply commit_noop, HP.
Qed.

Lemma step_empty_drop (st : State) :
  previewCurrent st ->
  step st (Drop [])
  = if mounted st then exec (setIsDragging false) st else st.
Proof.
  intros HP. unfold step, dispatch, exec at 1. rewrite !gets_bind.
  destruct (mounted st); [| reflexivity].
  change (snd ((handleDrop [];; commit (videoFile st)) st))
    with (exec (handleDrop [];; commit (videoFile st)) st).
  rewrite exec_seq.
  change (exec (handleDrop []) st) with (exec (setIsDragging false) st).
  change (videoFile st) with (videoFile (exec (setIsDragging false) st)).
  apply commit_noop, setIsDragging_previewCurrent, HP.
Qed.

(** X8: in every reachable state, a file dialog closed without a file
    leaves the whole state as it was, and a drop without a file, or with
    a first file that is not a video, yields the prior state with only
    [isDragging] cleared. *)
Theorem ignored_selections (evs : list Event) :
  let st := run evs initial in
  step st (FileSelect []) = st
  /\ step st (Drop [])
     = (if mounted st then exec (setIsDragging false) st else st)
  /\ (forall (file : File) (rest : list File),
        String.prefix "video/" (file_type file) = false ->
        step st (Drop (file :: rest))
        = if mounted st then exec (setIsDragging false) st else st).
Proof.
  cbv zeta. pose proof (previewCurrent_run evs) as HP.
  split; [exact (step_empty_selection _ HP) |].
  split; [exact (step_empty_drop _ HP) |].
  intros file rest Hty. rewrite (step_rejected_drop _ file rest Hty).
  destruct (mounted (run evs initial)); [| reflexivity].
  change (videoFile (run evs initial))
    with (videoFile (exec (setIsDragging false) (run evs initial))).
  apply commit_noop, setIsDragging_previewCurrent, HP.
Qed.

Lemma ignored_selections_witness :
  step (run [FileSelect [clip]; DragEnter] initial) (Drop [photo; clip])
  = exec (setIsDragging false) (run [FileSelect [clip]; DragEnter] initial).
Proof.
  destruct (ignored_selections [FileSelect [clip]; DragEnter])
    as (_ & _ & Hrej).
  rewrite (Hrej photo [clip] eq_refl).
  change (mounted (run [FileSelect [clip]; DragEnter] initial)) with true.
  reflexivity.
Defined.

(** Updates that keep a selected file selected. *)
Ltac selection_leaf :=
  first [ frame_setter
        | unfold setVideoFile; apply preserves_modify;
          solve [intros; cbn; eauto] ].

Lemma selected_after (file : File) (previous : option File) :
  preserves (fun st => videoFile st = Some file)
    (replacePreviewUrl file;; resetFileInput;; commit previous).
Proof. unfold_component. preserves_walk frame_setter. Qed.

(** X9: the file picker takes the first file of the list whatever its
    media type (only drops are checked for "video/"); a dropped video
    becomes the selection as well; in both paths the files after the
    first are ignored. *)
Theorem first_file_is_selected
    (st : State) (file : File) (rest : list File) :
  mounted st = true ->
  videoFile (step st (FileSelect (file :: rest))) = Some file
  /\ (String.prefix "video/" (file_type file) = true ->
      videoFile (step st (Drop (file :: rest))) = Some file)
  /\ step st (FileSelect (file :: rest)) = step st (FileSelect [file])
  /\ step st (Drop (file :: rest)) = step st (Drop [file]).
Proof.
  intros Hm. split; [| split; [| split; reflexivity]].
  - rewrite (step_FileSelect st file rest Hm), <- exec_seq.
    apply (preserves_exec _ _ (selected_after file (videoFile st))).
    destruct st; reflexivity.
  - intros Hty.
    rewrite (step_Drop_video st file rest Hm Hty), <- exec_seq.
    apply (preserves_exec _ _ (selected_after file (videoFile st))).
    destruct st; reflexivity.
Qed.

Lemma first_file_is_selected_witness :
  videoFile (step reportShown (FileSelect [photo; retake])) = Some photo
  /\ videoFile (step reportShown (Drop [retake; photo])) = Some retake.
Proof.
  destruct (first_file_is_selected reportShown photo [retake] eq_refl)
    as (Hpick & _).
  destruct (first_file_is_selected reportShown retake [photo] eq_refl)
    as (_ & Hdrop & _).
  split; [exact Hpick | exact (Hdrop eq_refl)].
Defined.

Lemma dispatch_keeps_selection (ev : Event) :
  preserves (fun st => is_Some (videoFile st)) (dispatch ev).
Proof.
  unfold dispatch. destruct ev; unfold_component;
    preserves_walk selection_leaf.
Qed.

(** X10: no event deselects: once a file is selected, a file stays
    selected through every later sequence of events, failed analyses and
    rejected drops included. *)
Theorem selection_is_never_cleared (evs : list Event) (st : State) :
  is_Some (videoFile st) -> is_Some (videoFile (run evs st)).
Proof.
  apply (run_invariant (fun s => is_Some (videoFile s))).
  intros s ev Hs. exact (dispatch_keeps_selection ev s Hs).
Qed.

Lemma selection_is_never_cleared_witness :
  is_Some (videoFile
             (run [Drop [photo]; AnalyzeClick;
                   RequestSettled (Rejected "Network Error"); FileSelect []]
                (run [FileSelect [clip]] initial))).
Proof.
  apply selection_is_never_cleared. exists clip. reflexivity.
Defined.

(** X11: the drop zone is highlighted by a drag entering it, the
    highlight is removed by a drag leaving and by every drop, accepted or
    not, and no other event, a drag moving over the zone included,
    touches it. *)
Theorem drag_highlight (st : State) (ev : Event) :
  mounted st = true ->
  isDragging (step st ev)
  = match ev with
    | DragEnter => true
    | DragLeave | Drop _ => false
    | _ => isDragging st
    end.
Proof.
  intros Hm.
  assert (Hkeep : forall (b : bool) (m : M unit),
            preserves (fun s => isDragging s = b) m ->
            forall s, isDragging s = b -> isDragging (exec m s) = b)
    by (intros b m Hp s Hs; exact (Hp s Hs)).
  destruct ev as [| | | files | files | value | | pe | outcome |];
    unfold step, dispatch, exec at 1; rewrite !gets_bind, ?Hm.
  - destruct st; reflexivity.
  - destruct st; reflexivity.
  - reflexivity.
  - change (snd ((handleDrop files;; commit (videoFile st)) st))
      with (exec (handleDrop files;; commit (videoFile st)) st).
    unfold handleDrop. rewrite !exec_seq.
    apply Hkeep; [unfold_component; preserves_walk frame_setter |].
    apply Hkeep; [unfold_component; preserves_walk frame_setter |].
    destruct st; reflexivity.
  - apply (Hkeep (isDragging st)); [| reflexivity].
    unfold_component. preserves_walk frame_setter.
  - destruct st; reflexivity.
  - apply (Hkeep (isDragging st)); [| reflexivity].
    unfold_component. preserves_walk frame_setter.
  - apply (Hkeep (isDragging st)); [| reflexivity].
    unfold_component. preserves_walk frame_setter.
  - apply (Hkeep (isDragging st)); [| reflexivity].
    unfold_component. preserves_walk frame_setter.
  - apply (Hkeep (isDragging st)); [| reflexivity].
    unfold_component. preserves_walk frame_setter.
Qed.

Lemma drag_highlight_witness :
  isDragging (step reportShown DragEnter) = true
  /\ isDragging (step (step reportShown DragEnter) DragOver) = true
  /\ isDragging (step (step reportShown DragEnter) (Drop [photo])) = false.
Proof.
  split; [exact (drag_highlight reportShown DragEnter eq_refl) |].
  split.
  - rewrite (drag_highlight (step reportShown DragEnter) DragOver eq_refl).
    exact (drag_highlight reportShown DragEnter eq_refl).
  - exact (drag_highlight (step reportShown DragEnter) (Drop [photo])
             eq_refl).
Defined.

Lemma fromCatalog_perform (e : Effect) :
  catalogRequest e -> preserves fromCatalog (perform e).
Proof.
  intros He [] [Hex Htr]. split; [exact Hex |].
  cbn in *. apply Forall_app. split; [exact Htr |].
  constructor; [exact He | constructor].
Qed.

Ltac catalog_leaf :=
  first [ frame_setter | apply fromCatalog_perform; exact I ].

Lemma fromCatalog_step (st : State) (ev : Event) :
  offered ev -> fromCatalog st -> fromCatalog (step st ev).
Proof.
  intros Hev HC.
  destruct ev as [| | | files | files | value | | pe | outcome |];
    try (match goal with
         | |- fromCatalog (step st ?e) =>
             lazymatch e with
             | AnalyzeClick => fail
             | ExerciseChange _ => fail
             | _ =>
                 cut (preserves fromCatalog (dispatch e));
                 [ intros Hp; exact (Hp st HC)
                 | unfold dispatch; unfold_component;
                   preserves_walk catalog_leaf ]
             end
         end).
  - destruct st as [? ? ? ? ? ? ? ? ? ? ? mt ?].
    destruct HC as [Hex Htr]. cbn in Hev, Hex, Htr.
    destruct mt; compute_step; split; assumption.
  - destruct st as [vf ex ? ld ? ? ? ? ? ? ? mt tr].
    destruct HC as [Hex Htr]. cbn in Hex, Htr.
    compute_step. destruct vf as [file|], ld, mt; cbn;
      try (split; assumption).
    split; [exact Hex |]. apply Forall_app. split; [exact Htr |].
    constructor; [| constructor].
    cbn. split; [reflexivity |]. split; [reflexivity |].
    exists file, ex. split; [reflexivity | exact Hex].
Qed.

(** X12: as long as the selector reports values of its catalog, every
    request posted in a run goes to the analyze endpoint as multipart
    form data with exactly a "video" file part and an "exercise_type"
    part whose value is squat, pushup or lunge. *)
Theorem requests_carry_catalog_exercise (evs : list Event) :
  Forall offered evs ->
  let st := run evs initial in
  In (exerciseType st) ["squat"; "pushup"; "lunge"]
  /\ Forall catalogRequest (trace st).
Proof.
  intros Hevs. cbv zeta.
  assert (HC : forall st, fromCatalog st -> fromCatalog (run evs st)).
  { induction Hevs as [|ev evs Hev Hevs IH]; intros st HC; [exact HC |].
    simpl. apply IH, fromCatalog_step; assumption. }
  apply (HC initial). split; [simpl; tauto | constructor].
Qed.

Lemma requests_carry_catalog_exercise_witness :
  Forall catalogRequest
    (trace (run [ExerciseChange "lunge"; FileSelect [clip]; AnalyzeClick]
              initial)).
Proof.
  apply (requests_carry_catalog_exercise
           [ExerciseChange "lunge"; FileSelect [clip]; AnalyzeClick]).
  repeat constructor; simpl; tauto.
Defined.

End Reachable.

(** ** Result renderer: further properties *)

Section Sections.
Import Renderer.

Lemma corrections_shown (a : AnalysisResult) (cards : list CorrectionCard) :
  In (CorrectionsNeeded cards) (renderResults (Some a))
  <-> exists cs, corrections_needed a = Some cs /\ cs <> []
                 /\ cards = map renderCorrection cs.
Proof.
  split.
  - rewrite in_renderResults.
    intros [H|[H|[H|[H|[H|H]]]]]; try discriminate H.
    + apply in_whenNonEmpty in H as (? & ? & _ & ?). discriminate.
    + apply in_whenNonEmpty in H as (x & rest & ? & Heq).
      injection Heq as ->. exists (x :: rest).
      split; [assumption |]. split; [discriminate | reflexivity].
    + apply in_whenObject in H as (? & ? & ?). discriminate.
    + apply in_whenNonEmpty in H as (? & ? & _ & ?). discriminate.
    + apply in_whenString in H as (? & ? & _ & ?). discriminate.
  - intros (cs & Hc & Hne & ->). apply in_renderResults.
    do 2 right; left. rewrite Hc.
    destruct cs; [congruence | simpl; tauto].
Qed.

Lemma breakdown_shown (a : AnalysisResult) (cells : list BreakdownCell) :
  In (DetailedBreakdown cells) (renderResults (Some a))
  <-> exists entries, detailed_breakdown a = Some entries
                      /\ cells = map renderAspect entries.
Proof.
  split; [apply breakdown_cells |].
  intros (entries & Hd & ->). apply detailed_breakdown_shown, Hd.
Qed.

Lemma overlay_shown (a : AnalysisResult) (video_src : string) :
  In (SkeletalOverlay video_src) (renderResults (Some a))
  <-> exists path, overlay_url a = Some path /\ path <> ""
                   /\ video_src = "http://localhost:5000" +:+ path.
Proof.
  split.
  - rewrite in_renderResults.
    intros [H|[H|[H|[H|[H|H]]]]]; try discriminate H.
    + apply in_whenNonEmpty in H as (? & ? & _ & ?). discriminate.
    + apply in_whenNonEmpty in H as (? & ? & _ & ?). discriminate.
    + apply in_whenObject in H as (? & ? & ?). discriminate.
    + apply in_whenNonEmpty in H as (? & ? & _ & ?). discriminate.
    + apply in_whenString in H as (c & rest & ? & Heq).
      injection Heq as ->. exists (String c rest).
      split; [assumption |]. split; [discriminate | reflexivity].
  - intros (path & Ho & Hne & ->). apply in_renderResults.
    do 5 right. rewrite Ho.
    destruct path; [congruence | simpl; tauto].
Qed.

(** X13: whether a section of the report is rendered, and what it shows,
    depends on its own field only: the strengths, corrections and tips
    exactly when their array is present and non-empty (one card per
    correction, in order), the breakdown whenever its object is present,
    the overlay exactly for a non-empty path, which is appended to the
    backend origin. *)
Theorem sections_depend_on_own_field (a : AnalysisResult) :
  (forall items,
     In (WhatsRight items) (renderResults (Some a))
     <-> whats_right a = Some items /\ items <> [])
  /\ (forall cards,
        In (CorrectionsNeeded cards) (renderResults (Some a))
        <-> exists cs, corrections_needed a = Some cs /\ cs <> []
                       /\ cards = map renderCorrection cs)
  /\ (forall cells,
        In (DetailedBreakdown cells) (renderResults (Some a))
        <-> exists entries, detailed_breakdown a = Some entries
                            /\ cells = map renderAspect entries)
  /\ (forall tips,
        In (ImprovementTips tips) (renderResults (Some a))
        <-> improvement_tips a = Some tips /\ tips <> [])
  /\ (forall video_src,
        In (SkeletalOverlay video_src) (renderResults (Some a))
        <-> exists path, overlay_url a = Some path /\ path <> ""
                         /\ video_src = "http://localhost:5000" +:+ path).
Proof.
  split; [exact (whats_right_shown a) |].
  split; [exact (corrections_shown a) |].
  split; [exact (breakdown_shown a) |].
  split; [exact (improvement_tips_shown a) | exact (overlay_shown a)].
Qed.

Lemma sections_depend_on_own_field_witness :
  In (WhatsRight ["good depth"]) (renderResults (Some pushupReport))
  /\ ~ In (SkeletalOverlay "http://localhost:5000")
         (renderResults (Some pushupReport)).
Proof.
  destruct (sections_depend_on_own_field pushupReport)
    as (Hright & _ & _ & _ & Hoverlay).
  split.
  - apply Hright. split; [reflexivity | discriminate].
  - intros Hin. apply Hoverlay in Hin as (path & Hpath & _).
    discriminate Hpath.
Defined.

Lemma replace_underscore_first (a b : string) :
  noUnderscore a ->
  replace_underscore (a +:+ String "_" b) = a +:+ String " " b.
Proof.
  unfold noUnderscore. induction a as [|c a IH]; simpl; intros Ha.
  - reflexivity.
  - inversion Ha as [|? ? Hc Hrest]; subst.
    destruct (Ascii.eqb_spec c "_"); [contradiction |].
    rewrite (IH Hrest). reflexivity.
Qed.

Lemma replace_underscore_none (s : string) :
  noUnderscore s -> replace_underscore s = s.
Proof.
  unfold noUnderscore. induction s as [|c s IH]; simpl; intros Hs.
  - reflexivity.
  - inversion Hs as [|? ? Hc Hrest]; subst.
    destruct (Ascii.eqb_spec c "_"); [contradiction |].
    rewrite (IH Hrest). reflexivity.
Qed.

Lemma replace_underscore_length (s : string) :
  String.length (replace_underscore s) = String.length s.
Proof.
  induction s as [|c s IH]; simpl; [reflexivity |].
  destruct (Ascii.eqb c "_"); simpl; congruence.
Qed.

(** X14: the title of a breakdown cell is the aspect name with its first
    underscore, and only the first, turned into a space: what follows
    that underscore is kept as it is, a name without underscore is
    unchanged, and the length never changes. *)
Theorem aspect_title_first_underscore (a b : string) (data : AspectData) :
  noUnderscore a ->
  cell_title (renderAspect (a +:+ String "_" b, data)) = a +:+ String " " b
  /\ cell_title (renderAspect (a, data)) = a
  /\ (forall s, String.length (cell_title (renderAspect (s, data)))
                = String.length s).
Proof.
  intros Ha. split; [exact (replace_underscore_first a b Ha) |].
  split; [exact (replace_underscore_none a Ha) |].
  intros s. exact (replace_underscore_length s).
Qed.

Lemma aspect_title_first_underscore_witness :
  cell_title (renderAspect ("hip_knee_alignment",
                            {| score := 70; aspect_feedback := "ok" |}))
  = "hip knee_alignment".
Proof.
  apply (aspect_title_first_underscore "hip" "knee_alignment"
           {| score := 70; aspect_feedback := "ok" |}).
  repeat constructor; discriminate.
Defined.

End Sections.

(** ** The earlier component: properties *)

Section LegacyFacts.

#[local] Arguments count : simpl never.

Lemma legacy_pick_file (st : State) (file : File) (rest : list File) :
  trace (Legacy.pick st (file :: rest))
  = trace st ++ [CreateObjectURL file (next_url st)]
  /\ next_url (Legacy.pick st (file :: rest)) = S (next_url st)
  /\ videoRef (Legacy.pick st (file :: rest))
     = match videoRef st with
       | Some _ => Some {| src := Some (next_url st) |}
       | None => Some {| src := None |}
       end.
Proof.
  destruct st as [? ? ? ? ? ? [v|] ? ? ? ? ? ?];
    unfold Legacy.pick, Legacy.handleFileSelect, Legacy.commit;
    compute_step; repeat split.
Qed.

Lemma legacy_picks_leak (selections : list (list File)) (st : State) :
  Forall (fun files => files <> []) selections ->
  releases (trace st) = 0%nat ->
  creations (trace st) = next_url st ->
  liveHandles (trace st) = set_seq 0 (next_url st) ->
  let st' := Legacy.picks selections st in
  releases (trace st') = 0%nat
  /\ creations (trace st') = (next_url st + length selections)%nat
  /\ liveHandles (trace st') = set_seq 0 (next_url st + length selections).
Proof.
  intros Hsel. revert st.
  induction Hsel as [|files selections Hne Hsel IH]; intros st Hr Hc Hl.
  - cbv zeta. simpl. rewrite Nat.add_0_r. repeat split; assumption.
  - destruct files as [|file rest]; [congruence |].
    destruct (legacy_pick_file st file rest) as (Htr & Hnext & _).
    cbv zeta. simpl.
    destruct (IH (Legacy.pick st (file :: rest))) as (Hr' & Hc' & Hl').
    + rewrite Htr. unfold releases in *. rewrite count_snoc. simpl. lia.
    + rewrite Htr, Hnext. unfold creations in *.
      rewrite count_snoc. simpl. lia.
    + rewrite Htr, Hnext, liveHandles_snoc, Hl. cbn [applyEffect].
      rewrite set_seq_S_end_union_L. rewrite Nat.add_0_l.
      apply (comm_L (∪)).
    + rewrite Hnext in Hc', Hl'.
      replace (next_url st + S (length selections))%nat
        with (S (next_url st) + length selections)%nat by lia.
      repeat split; assumption.
Qed.

(** X15: the earlier component never releases a preview handle: after n
    uses of its file picker that return a file, n handles have been
    created, none released, and all n are live. *)
Theorem legacy_handles_leak (selections : list (list File)) :
  Forall (fun files => files <> []) selections ->
  let st := Legacy.picks selections initial in
  creations (trace st) = length selections
  /\ releases (trace st) = 0%nat
  /\ size (liveHandles (trace st)) = length selections.
Proof.
  intros Hsel.
  destruct (legacy_picks_leak selections initial Hsel)
    as (Hr & Hc & Hl); try reflexivity.
  cbv zeta. simpl in Hc, Hl. split; [exact Hc |]. split; [exact Hr |].
  rewrite Hl. apply size_set_seq.
Qed.

Lemma legacy_handles_leak_witness :
  size (liveHandles (trace (Legacy.picks [[clip]; [retake]; [clip]] initial)))
  = 3%nat.
Proof.
  apply (legacy_handles_leak [[clip]; [retake]; [clip]]).
  repeat constructor; discriminate.
Defined.

(** X16: in the earlier component the first file picked gets no preview:
    the [<video>] element is mounted after the handler has run, so its
    source is never set; from the second pick on, the element is pointed
    at the newly created URL. *)
Theorem legacy_first_preview_is_empty
    (st : State) (file : File) (rest : list File) :
  (videoRef st = None ->
   videoRef (Legacy.pick st (file :: rest)) = Some {| src := None |})
  /\ (forall v, videoRef st = Some v ->
      videoRef (Legacy.pick st (file :: rest))
      = Some {| src := Some (next_url st) |}).
Proof.
  destruct (legacy_pick_file st file rest) as (_ & _ & Hv).
  rewrite Hv. split.
  - intros ->. reflexivity.
  - intros v ->. reflexivity.
Qed.

Lemma legacy_first_preview_is_empty_witness :
  videoRef (Legacy.pick initial [clip]) = Some {| src := None |}
  /\ videoRef (Legacy.pick (Legacy.pick initial [clip]) [retake])
     = Some {| src := Some 1%nat |}.
Proof.
  split.
  - apply (legacy_first_preview_is_empty initial clip []). reflexivity.
  - apply (proj2 (legacy_first_preview_is_empty
                    (Legacy.pick initial [clip]) retake [])
             {| src := None |}).
    reflexivity.
Defined.

Lemma legacy_mapRendered_throws (c : Correction) (cs : list Correction) :
  Legacy.mapRendered Legacy.renderCorrection (c :: cs)
  = inl "ReferenceError: correrection is not defined".
Proof. reflexivity. Qed.

(** X17: the earlier component cannot show corrections: rendering a
    report whose [corrections_needed] is a non-empty array throws a
    ReferenceError, and rendering any other report yields the sections of
    the current component for that report without its overlay. *)
Theorem legacy_corrections_throw (a : AnalysisResult) :
  ((exists c cs, corrections_needed a = Some (c :: cs))
   <-> exists error, Legacy.renderResults (Some a) = inl error)
  /\ ((corrections_needed a = None \/ corrections_needed a = Some []) ->
      Legacy.renderResults (Some a)
      = inr (Renderer.renderResults
               (Some {| overall_score := overall_score a;
                        whats_right := whats_right a;
                        corrections_needed := corrections_needed a;
                        detailed_breakdown := detailed_breakdown a;
                        improvement_tips := improvement_tips a;
                        overlay_url := None |}))).
Proof.
  destruct a as [sc wr [[|c cs]|] db tips ov]; unfold Legacy.renderResults;
    cbn [corrections_needed overall_score whats_right detailed_breakdown
         improvement_tips overlay_url].
  - split.
    + split; [intros (? & ? & ?); discriminate |
              intros (? & ?); discriminate].
    + intros _. unfold Renderer.renderResults. simpl.
      rewrite app_nil_r. reflexivity.
  - rewrite legacy_mapRendered_throws. split.
    + split; [intros _; eexists; reflexivity | intros _; eauto].
    + intros [?|?]; discriminate.
  - split.
    + split; [intros (? & ? & ?); discriminate |
              intros (? & ?); discriminate].
    + intros _. unfold Renderer.renderResults. simpl.
      rewrite app_nil_r. reflexivity.
Qed.

Lemma legacy_corrections_throw_witness :
  Legacy.renderResults (Some pushupReport)
  = inl "ReferenceError: correrection is not defined".
Proof.
  destruct (proj1 (proj1 (legacy_corrections_throw pushupReport)))
    as [error He]; [do 2 eexists; reflexivity |].
  rewrite He. vm_compute in He. injection He as <-. reflexivity.
Defined.

End LegacyFacts.
